(** * oi_local.py: conversation memory and crash logging

    A shallow embedding of [oi_local.py]: [load_memory], [save_memory] and
    [start_with_logging], together with the parts of the Python library
    they call ([json.load], [json.dump], [open], [print], [input],
    [traceback.print_exc]).

    Conventions of the model.
    - A Python [str] is a list of code points ([N]).  The text of the
      memory file is kept as the code points a text-mode read yields;
      writing a chunk that holds a code point UTF-8 cannot encode (a lone
      surrogate) raises [UnicodeEncodeError], as [f.write] does.
    - Console text, the crash log and rendered tracebacks are Rocq
      strings: their characters play no role in the program's logic, and
      writing them is taken to succeed.
    - The encoder and the scanner follow CPython 3.11's [json.encoder],
      [json.decoder] and [json.scanner].  Dictionaries are association
      lists in insertion order with string keys, as [json.load] builds
      them.
    - Python floats are a parameter of the development ([pyfloat] with
      its literal reader and its [repr]); no theorem looks inside them.
    - The interpreter library's chat loop [oi.chat] is a parameter: any
      state transformer that returns or raises.
    - Interpreter limits (recursion depth, the digit limit of [int]) are
      not modelled.

    The file has the definitions first (the library, the script, the
    notions the statements use), then the lemmas about the encoder and
    the scanner, then the statements about the script, numbered as the
    claims they settle (C1, C2, ...), then further properties of the
    script and of the text it writes (X1, X2, ...), and last the sample
    runs. *)

From Stdlib Require Import List Bool Arith ZArith NArith Lia.
From Stdlib Require Import String Ascii.
From Stdlib Require Import Decimal DecimalFacts DecimalPos DecimalString.
Import ListNotations.

Local Open Scope list_scope.

(* [String] is loaded for the console text; the list functions keep
   their short names. *)
Abbreviation length := List.length.
Abbreviation concat := List.concat.

(** ** Text *)

(** A code point, and a Python [str]: names for [N] and [list N]. *)
Abbreviation codepoint := N.
Abbreviation str := (list N).

(** [ord(c)] of an ASCII character *)
Definition ord (a : ascii) : codepoint := N_of_ascii a.

(** An ASCII literal of the source, as a Python [str]. *)
Definition lit (s : string) : str := map ord (list_ascii_of_string s).

Definition QUOTE : codepoint := 34%N.
Definition BACKSLASH : codepoint := 92%N.

(** [' ' * n] *)
Definition spaces (n : nat) : str := repeat 32%N n.

(** What [str.encode('utf-8')] accepts: Unicode scalar values. *)
Definition utf8_encodable (c : codepoint) : bool :=
  ((c <? 55296) || ((57343 <? c) && (c <? 1114112)))%N.

(** ** Exceptions *)

Inductive exn :=
| JSONDecodeError (msg : string)
| TypeError (msg : string)
| UnicodeEncodeError
| OSError
| EOFError
| OtherException (name : string)     (* any other subclass of Exception *)
| KeyboardInterrupt
| SystemExit
| GeneratorExit.

(** [isinstance(e, Exception)]: the three classes below derive from
    [BaseException] only. *)
Definition is_Exception (e : exn) : bool :=
  match e with
  | KeyboardInterrupt | SystemExit | GeneratorExit => false
  | _ => true
  end.

(** ** Decimal and hexadecimal digits *)

(** The characters of a decimal numeral. *)
Fixpoint uint_digits (d : Decimal.uint) : str :=
  match d with
  | Nil => []
  | D0 d => 48%N :: uint_digits d
  | D1 d => 49%N :: uint_digits d
  | D2 d => 50%N :: uint_digits d
  | D3 d => 51%N :: uint_digits d
  | D4 d => 52%N :: uint_digits d
  | D5 d => 53%N :: uint_digits d
  | D6 d => 54%N :: uint_digits d
  | D7 d => 55%N :: uint_digits d
  | D8 d => 56%N :: uint_digits d
  | D9 d => 57%N :: uint_digits d
  end.

(** [int.__repr__] *)
Definition int_repr (z : Z) : str :=
  match z with
  | Z0 => [48%N]
  | Zpos p => uint_digits (Pos.to_uint p)
  | Zneg p => 45%N :: uint_digits (Pos.to_uint p)
  end.

(** The lower-case hexadecimal digit of [n < 16] *)
Definition hexdigit (n : N) : codepoint :=
  (if n <? 10 then 48 + n else 87 + n)%N.

(** ['{0:04x}'.format(n)] for [n < 65536] *)
Definition format_04x (n : N) : str :=
  [hexdigit ((n / 4096) mod 16); hexdigit ((n / 256) mod 16);
   hexdigit ((n / 16) mod 16); hexdigit (n mod 16)]%N.

(** ** json.encoder *)

(** [ESCAPE_DCT]: the replacement of each character [ESCAPE] matches. *)
Definition ESCAPE_DCT (c : codepoint) : option str :=
  if (c =? 92)%N then Some [92; 92]%N
  else if (c =? 34)%N then Some [92; 34]%N
  else if (c =? 8)%N then Some (lit "\b")
  else if (c =? 12)%N then Some (lit "\f")
  else if (c =? 10)%N then Some (lit "\n")
  else if (c =? 13)%N then Some (lit "\r")
  else if (c =? 9)%N then Some (lit "\t")
  else if (c <? 32)%N then Some (lit "\u" ++ format_04x c)
  else None.

(** [ESCAPE.sub(replace, s)] on one character *)
Definition escape_char (c : codepoint) : str :=
  match ESCAPE_DCT c with
  | Some r => r
  | None => [c]
  end.

(** [encode_basestring], the [_encoder] of [ensure_ascii=False] *)
Definition encode_basestring (s : str) : str :=
  QUOTE :: flat_map escape_char s ++ [QUOTE].

(** A generator run to its end: the chunks it yielded, and the exception
    that stopped it, if any.  [yield] and [graise] are the two ways a
    generator goes on; [g1 ;; g2] runs [g2] after [g1] unless [g1]
    raised. *)
Definition gen := (list str * option exn)%type.

Definition yield (chunk : str) : gen := ([chunk], None).
Definition graise (e : exn) : gen := ([], Some e).
Definition gseq (g1 g2 : gen) : gen :=
  match snd g1 with
  | Some _ => g1
  | None => (fst g1 ++ fst g2, snd g2)
  end.

Declare Scope gen_scope.
Delimit Scope gen_scope with gen.
Notation "g1 ;; g2" := (gseq g1 g2)
  (at level 61, right associativity) : gen_scope.

(** ** Outcomes, files and effects *)

(** The outcome of scanning at a position of the text: the value and
    the text that follows it, or [JSONDecodeError].  [OutOfFuel] is the
    model's own: a loop counter ran out. *)
Inductive scanned (A : Type) :=
| Scanned (a : A) (rest : str)
| Invalid (msg : string)
| OutOfFuel.
Arguments Scanned {A} a rest.
Arguments Invalid {A} msg.
Arguments OutOfFuel {A}.

(** The result of a statement: it returns a value or raises. *)
Inductive result (A : Type) :=
| Return (a : A)
| Raise (e : exn).
Arguments Return {A} a.
Arguments Raise {A} e.

(** An entry of the working directory, as [open(..., encoding="utf-8")]
    sees it.  [Unreadable] is a file that exists and cannot be read (its
    read permission is off); opening it for writing succeeds. *)
Inductive node :=
| Absent
| TextFile (content : str)
| Unreadable.

(** The effects of the script, as the trace of a run records them. *)
Inductive event :=
| Print (line : string)                     (* print(line), on stdout *)
| Stderr (text : string)                    (* text written to stderr *)
| Input (prompt : string)                   (* input(prompt) *)
| Open (path : string) (mode : string)      (* open(path, mode) *)
| Write (path : string) (text : string)     (* f.write of rendered text *)
| WriteStr (path : string) (chunk : str).   (* f.write of a Python str *)

(** ** Instances for the sample runs *)

(** JSON text by hand: a string literal between quotes, and a line feed
    followed by an indent. *)
Definition quoted (s : string) : str := QUOTE :: lit s ++ [QUOTE].
Definition line_indent (n : nat) : str := 10%N :: spaces n.

(** The serialization of a list of one message whose content is the
    lone surrogate U+D800, and the part of it that precedes the string
    UTF-8 cannot encode. *)
Definition surrogate_text_written : str :=
  lit "[" ++ line_indent 4 ++ lit "{" ++ line_indent 8
  ++ quoted "role" ++ lit ": " ++ quoted "user" ++ lit "," ++ line_indent 8
  ++ quoted "content" ++ lit ": ".

Definition surrogate_text : str :=
  surrogate_text_written ++ [QUOTE; 55296%N; QUOTE]
  ++ line_indent 4 ++ lit "}" ++ line_indent 0 ++ lit "]".

(** A float kept as the text of its literal, and a rendering of
    tracebacks. *)
Definition literal_text (s : str) : str := s.

Definition sample_traceback (e : exn) : string :=
  match e with
  | OtherException name =>
      "Traceback (most recent call last): ... " ++ name
  | _ => "Traceback (most recent call last): ..."
  end.

Section Program.

(** The float type of the interpreter, [float(literal)] and the text the
    encoder writes for a float ([float.__repr__], or [NaN], [Infinity],
    [-Infinity]). *)
Variable pyfloat : Type.
Variable float_of_literal : str -> pyfloat.
Variable floatstr : pyfloat -> str.

(** ** Values *)

(** The Python values a message list is made of.  [PObject] stands for an
    object of any type the JSON encoder has no case for.  Dictionaries
    keep their insertion order; their keys are strings. *)
#[local] Unset Elimination Schemes.
Inductive pyval :=
| PNone
| PBool (b : bool)
| PInt (z : Z)
| PFloat (f : pyfloat)
| PStr (s : str)
| PList (lst : list pyval)
| PDict (dct : list (str * pyval))
| PObject (type_name : string).
#[local] Set Elimination Schemes.

(** The branches of the encoder that yield one chunk of text: [str],
    [None], [True], [False], [int], [float]. *)
Definition atom_text (value : pyval) : option str :=
  match value with
  | PStr s => Some (encode_basestring s)
  | PNone => Some (lit "null")
  | PBool true => Some (lit "true")
  | PBool false => Some (lit "false")
  | PInt z => Some (int_repr z)
  | PFloat f => Some (floatstr f)
  | _ => None
  end.

Definition not_serializable (type_name : string) : exn :=
  TypeError ("Object of type " ++ type_name ++ " is not JSON serializable").

(** [_make_iterencode] with [_indent = ' ' * 4], [_item_separator = ','],
    [_key_separator = ': '], no [sort_keys], no [skipkeys].  The [for]
    loops of [_iterencode_list] and [_iterencode_dict] come first, over
    the generator of the items one level down. *)
Section EncoderLoops.

Variable iterencode_item : pyval -> gen.

(** [for value in lst]: [buf] is the opening bracket and the indent
    before the first item, the separator before the others. *)
Fixpoint _iterencode_list_items (separator : str) (lst : list pyval) (buf : str)
  : gen :=
  match lst with
  | [] => ([], None)
  | value :: lst' =>
      (match atom_text value with
       | Some text => yield (buf ++ text)
       | None => yield buf ;; iterencode_item value
       end ;;
       _iterencode_list_items separator lst' separator)%gen
  end.

(** [for key, value in items] *)
Fixpoint _iterencode_dict_items (item_separator : str)
    (items : list (str * pyval)) (first : bool) : gen :=
  match items with
  | [] => ([], None)
  | (key, value) :: items' =>
      ((if first then ([], None) else yield item_separator) ;;
       yield (encode_basestring key) ;;
       yield (lit ": ") ;;
       match atom_text value with
       | Some text => yield text
       | None => iterencode_item value
       end ;;
       _iterencode_dict_items item_separator items' false)%gen
  end.

End EncoderLoops.

Fixpoint _iterencode (o : pyval) (_current_indent_level : nat) {struct o} : gen :=
  match o with
  | PList lst =>
      match lst with
      | [] => yield (lit "[]")
      | _ :: _ =>
          let level := S _current_indent_level in
          let newline_indent := 10%N :: spaces (4 * level) in
          let separator := 44%N :: newline_indent in
          (_iterencode_list_items (fun value => _iterencode value level)
             separator lst (91%N :: newline_indent) ;;
           yield (10%N :: spaces (4 * _current_indent_level)) ;;
           yield (lit "]"))%gen
      end
  | PDict dct =>
      match dct with
      | [] => yield (lit "{}")
      | _ :: _ =>
          let level := S _current_indent_level in
          let newline_indent := 10%N :: spaces (4 * level) in
          let item_separator := 44%N :: newline_indent in
          (yield (lit "{") ;;
           yield newline_indent ;;
           _iterencode_dict_items (fun value => _iterencode value level)
             item_separator dct true ;;
           yield (10%N :: spaces (4 * _current_indent_level)) ;;
           yield (lit "}"))%gen
      end
  | PObject type_name => graise (not_serializable type_name)
  | _ =>
      match atom_text o with
      | Some text => yield text
      | None => ([], None)
      end
  end.

(** ** json.decoder and json.scanner *)

(** [WHITESPACE_STR]: space, tab, line feed, carriage return *)
Definition is_whitespace (c : codepoint) : bool :=
  ((c =? 32) || (c =? 9) || (c =? 10) || (c =? 13))%N.

(** [WHITESPACE.match(s, end).end()] *)
Fixpoint skip_ws (s : str) : str :=
  match s with
  | c :: s' => if is_whitespace c then skip_ws s' else s
  | [] => []
  end.

(** The value of a hexadecimal digit *)
Definition hexval (c : codepoint) : option N :=
  (if (48 <=? c) && (c <=? 57) then Some (c - 48)
   else if (97 <=? c) && (c <=? 102) then Some (c - 87)
   else if (65 <=? c) && (c <=? 70) then Some (c - 55)
   else None)%N.

(** [int(esc, 16)] on the four characters of a [\uXXXX] escape *)
Definition hex4 (h1 h2 h3 h4 : codepoint) : option N :=
  match hexval h1, hexval h2, hexval h3, hexval h4 with
  | Some a, Some b, Some c, Some d => Some (a * 4096 + b * 256 + c * 16 + d)%N
  | _, _, _, _ => None
  end.

(** [BACKSLASH]: the one-letter escapes *)
Definition BACKSLASH_DCT (esc : codepoint) : option codepoint :=
  (if esc =? 34 then Some 34
   else if esc =? 92 then Some 92
   else if esc =? 47 then Some 47
   else if esc =? 98 then Some 8
   else if esc =? 102 then Some 12
   else if esc =? 110 then Some 10
   else if esc =? 114 then Some 13
   else if esc =? 116 then Some 9
   else None)%N.

(** [0xd800 <= uni <= 0xdbff] and [0xdc00 <= uni2 <= 0xdfff] *)
Definition high_surrogate (uni : N) : bool := ((55296 <=? uni) && (uni <=? 56319))%N.
Definition low_surrogate (uni : N) : bool := ((56320 <=? uni) && (uni <=? 57343))%N.

(** [0x10000 + (((uni - 0xd800) << 10) | (uni2 - 0xdc00))] *)
Definition join_surrogates (uni uni2 : N) : N :=
  (65536 + N.lor (N.shiftl (uni - 55296) 10) (uni2 - 56320))%N.

(** [_append(char)], on the outcome of the rest of the loop *)
Definition append_char (char : codepoint) (r : scanned str) : scanned str :=
  match r with
  | Scanned chunks rest => Scanned (char :: chunks) rest
  | Invalid msg => Invalid msg
  | OutOfFuel => OutOfFuel
  end.

(** [scanstring(s, end)], strict: [s] is the text after the opening
    quote.  Each step of the loop is one character or one escape. *)
Fixpoint scanstring (s : str) : scanned str :=
  match s with
  | [] => Invalid "Unterminated string starting at"
  | c :: s1 =>
      if (c =? QUOTE)%N then Scanned [] s1
      else if (c =? BACKSLASH)%N then
        match s1 with
        | [] => Invalid "Unterminated string starting at"
        | esc :: s2 =>
            if (esc =? 117)%N then
              match s2 with
              | h1 :: h2 :: h3 :: h4 :: s6 =>
                  match hex4 h1 h2 h3 h4 with
                  | None => Invalid "Invalid \uXXXX escape"
                  | Some uni =>
                      if high_surrogate uni then
                        match s6 with
                        | b :: u :: s8 =>
                            if ((b =? 92) && (u =? 117))%N then
                              match s8 with
                              | g1 :: g2 :: g3 :: g4 :: s12 =>
                                  match hex4 g1 g2 g3 g4 with
                                  | None => Invalid "Invalid \uXXXX escape"
                                  | Some uni2 =>
                                      if low_surrogate uni2
                                      then append_char (join_surrogates uni uni2)
                                                       (scanstring s12)
                                      else append_char uni (scanstring s6)
                                  end
                              | _ => Invalid "Invalid \uXXXX escape"
                              end
                            else append_char uni (scanstring s6)
                        | _ => append_char uni (scanstring s6)
                        end
                      else append_char uni (scanstring s6)
                  end
              | _ => Invalid "Invalid \uXXXX escape"
              end
            else
              match BACKSLASH_DCT esc with
              | Some char => append_char char (scanstring s2)
              | None => Invalid "Invalid \escape"
              end
        end
      else if (c <? 32)%N then Invalid "Invalid control character at"
      else append_char c (scanstring s1)
  end.

Definition is_digit (c : codepoint) : bool := ((48 <=? c) && (c <=? 57))%N.

(** The longest run of digits at the head of the text. *)
Fixpoint span_digits (s : str) : str * str :=
  match s with
  | c :: s' =>
      if is_digit c
      then let (ds, rest) := span_digits s' in (c :: ds, rest)
      else ([], s)
  | [] => ([], [])
  end.

(** The decimal numeral spelt by a run of digits. *)
Definition push_digit (c : codepoint) (d : Decimal.uint) : Decimal.uint :=
  (if c =? 48 then D0 d else if c =? 49 then D1 d
   else if c =? 50 then D2 d else if c =? 51 then D3 d
   else if c =? 52 then D4 d else if c =? 53 then D5 d
   else if c =? 54 then D6 d else if c =? 55 then D7 d
   else if c =? 56 then D8 d else D9 d)%N.

Definition digits_uint (ds : str) : Decimal.uint :=
  fold_right push_digit Nil ds.

(** [int(integer)] on the first group of [NUMBER_RE] *)
Definition parse_int (integer : str) : Z :=
  match integer with
  | c :: ds =>
      if (c =? 45)%N then Z.opp (Z.of_N (Pos.of_uint (digits_uint ds)))
      else Z.of_N (Pos.of_uint (digits_uint integer))
  | [] => 0%Z
  end.

(** The three groups of [NUMBER_RE] matched at the head of the text, and
    the text after the match: an integer part (an optional minus sign,
    then a single 0 or a digit 1-9 and any digits), an optional fraction
    (a dot and digits) and an optional exponent (e or E, an optional
    sign, digits). *)
Definition match_integer (s : str) : option (str * str) :=
  let (sign, s0) := match s with
                    | c :: s' => if (c =? 45)%N then ([c], s') else ([], s)
                    | [] => ([], s)
                    end in
  match s0 with
  | d :: s1 =>
      if (d =? 48)%N then Some (sign ++ [d], s1)
      else if is_digit d then
        let (ds, rest) := span_digits s1 in Some (sign ++ d :: ds, rest)
      else None
  | [] => None
  end.

Definition match_frac (s : str) : str * str :=
  match s with
  | c :: d :: _ =>
      if ((c =? 46) && is_digit d)%N
      then let (ds, rest) := span_digits (tl s) in (c :: ds, rest)
      else ([], s)
  | _ => ([], s)
  end.

Definition match_exp (s : str) : str * str :=
  match s with
  | e :: s1 =>
      if ((e =? 101) || (e =? 69))%N then
        let (sign, s2) := match s1 with
                          | c :: s' => if ((c =? 45) || (c =? 43))%N
                                       then ([c], s') else ([], s1)
                          | [] => ([], s1)
                          end in
        match s2 with
        | d :: _ =>
            if is_digit d
            then let (ds, rest) := span_digits s2 in (e :: sign ++ ds, rest)
            else ([], s)
        | [] => ([], s)
        end
      else ([], s)
  | [] => ([], s)
  end.

Definition match_number (s : str) : option (str * str * str * str) :=
  match match_integer s with
  | None => None
  | Some (integer, s1) =>
      let (frac, s2) := match_frac s1 in
      let (exp, s3) := match_exp s2 in
      Some (integer, frac, exp, s3)
  end.

(** [s[idx:idx + len(word)] == word], giving the text after the word *)
Fixpoint after_word (word s : str) : option str :=
  match word, s with
  | [], _ => Some s
  | w :: word', c :: s' => if (w =? c)%N then after_word word' s' else None
  | _ :: _, [] => None
  end.

(** [not l] *)
Definition is_nil {A} (l : list A) : bool :=
  match l with [] => true | _ :: _ => false end.

(** [a == b] on strings *)
Fixpoint str_eqb (a b : str) : bool :=
  match a, b with
  | [], [] => true
  | x :: a', y :: b' => (x =? y)%N && str_eqb a' b'
  | _, _ => false
  end.

(** [d[key] = value]: a key already present keeps its place. *)
Fixpoint dict_set (d : list (str * pyval)) (key : str) (value : pyval)
  : list (str * pyval) :=
  match d with
  | [] => [(key, value)]
  | (k, v) :: d' =>
      if str_eqb k key then (k, value) :: d'
      else (k, v) :: dict_set d' key value
  end.

(** [dict(pairs)] *)
Definition dict (pairs : list (str * pyval)) : list (str * pyval) :=
  fold_left (fun d kv => dict_set d (fst kv) (snd kv)) pairs [].

(** [JSONArray((s, end), scan_once)]: [s] is the text after the opening
    bracket.  The [while True] loop is [array_items]; its counter bounds
    the number of iterations by the length of the text, each iteration
    consuming at least one character ([json_loads_total] below: it never
    runs out). *)
Fixpoint array_items (scan_once : str -> scanned pyval) (n : nat)
    (s : str) (values : list pyval) {struct n} : scanned pyval :=
  match n with
  | O => OutOfFuel
  | S n' =>
      match scan_once s with
      | Scanned value s1 =>
          let values := values ++ [value] in
          match skip_ws s1 with
          | [] => Invalid "Expecting ',' delimiter"
          | nextchar :: s2 =>
              if (nextchar =? 93)%N then Scanned (PList values) s2
              else if (nextchar =? 44)%N
              then array_items scan_once n' (skip_ws s2) values
              else Invalid "Expecting ',' delimiter"
          end
      | Invalid msg => Invalid msg
      | OutOfFuel => OutOfFuel
      end
  end.

Definition JSONArray (scan_once : str -> scanned pyval) (s : str)
  : scanned pyval :=
  let s0 := skip_ws s in
  match s0 with
  | nextchar :: s1 =>
      if (nextchar =? 93)%N then Scanned (PList []) s1
      else array_items scan_once (S (length s0)) s0 []
  | [] => array_items scan_once (S (length s0)) s0 []
  end.

(** [JSONObject((s, end), strict, scan_once, ...)] without hooks: [s] is
    the text after the opening brace; [object_items] is the loop, entered
    after the quote that opens a key. *)
Fixpoint object_items (scan_once : str -> scanned pyval) (n : nat)
    (s : str) (pairs : list (str * pyval)) {struct n} : scanned pyval :=
  match n with
  | O => OutOfFuel
  | S n' =>
      match scanstring s with
      | Scanned key s1 =>
          match skip_ws s1 with
          | [] => Invalid "Expecting ':' delimiter"
          | colon :: s2 =>
              if negb (colon =? 58)%N then Invalid "Expecting ':' delimiter" else
              match scan_once (skip_ws s2) with
              | Scanned value s3 =>
                  let pairs := pairs ++ [(key, value)] in
                  match skip_ws s3 with
                  | [] => Invalid "Expecting ',' delimiter"
                  | nextchar :: s4 =>
                      if (nextchar =? 125)%N then Scanned (PDict (dict pairs)) s4
                      else if (nextchar =? 44)%N then
                        match skip_ws s4 with
                        | [] => Invalid "Expecting property name enclosed in double quotes"
                        | quote :: s5 =>
                            if (quote =? QUOTE)%N
                            then object_items scan_once n' s5 pairs
                            else Invalid "Expecting property name enclosed in double quotes"
                        end
                      else Invalid "Expecting ',' delimiter"
                  end
              | Invalid msg => Invalid msg
              | OutOfFuel => OutOfFuel
              end
          end
      | Invalid msg => Invalid msg
      | OutOfFuel => OutOfFuel
      end
  end.

Definition JSONObject (scan_once : str -> scanned pyval) (s : str)
  : scanned pyval :=
  let s0 := skip_ws s in
  match s0 with
  | nextchar :: s1 =>
      if (nextchar =? 125)%N then Scanned (PDict []) s1
      else if (nextchar =? QUOTE)%N
      then object_items scan_once (S (length s0)) s1 []
      else Invalid "Expecting property name enclosed in double quotes"
  | [] => Invalid "Expecting property name enclosed in double quotes"
  end.

(** [_scan_once(string, idx)]; the counter bounds the nesting depth. *)
Fixpoint scan_once (fuel : nat) (s : str) {struct fuel} : scanned pyval :=
  match fuel with
  | O => OutOfFuel
  | S fuel' =>
      match s with
      | [] => Invalid "Expecting value"
      | nextchar :: s1 =>
          if (nextchar =? QUOTE)%N then
            match scanstring s1 with
            | Scanned chunks rest => Scanned (PStr chunks) rest
            | Invalid msg => Invalid msg
            | OutOfFuel => OutOfFuel
            end
          else if (nextchar =? 123)%N then JSONObject (scan_once fuel') s1
          else if (nextchar =? 91)%N then JSONArray (scan_once fuel') s1
          else
            match after_word (lit "null") s with
            | Some rest => Scanned PNone rest
            | None =>
            match after_word (lit "true") s with
            | Some rest => Scanned (PBool true) rest
            | None =>
            match after_word (lit "false") s with
            | Some rest => Scanned (PBool false) rest
            | None =>
            match match_number s with
            | Some (integer, frac, exp, rest) =>
                if is_nil frac && is_nil exp
                then Scanned (PInt (parse_int integer)) rest
                else Scanned (PFloat (float_of_literal (integer ++ frac ++ exp))) rest
            | None =>
            match after_word (lit "NaN") s with
            | Some rest => Scanned (PFloat (float_of_literal (lit "NaN"))) rest
            | None =>
            match after_word (lit "Infinity") s with
            | Some rest => Scanned (PFloat (float_of_literal (lit "Infinity"))) rest
            | None =>
            match after_word (lit "-Infinity") s with
            | Some rest => Scanned (PFloat (float_of_literal (lit "-Infinity"))) rest
            | None => Invalid "Expecting value"
            end end end end end end end
      end
  end.

(** [json.loads(s)]: [JSONDecoder.decode] after the byte-order-mark
    check. *)
Definition json_loads (s : str) : scanned pyval :=
  if match s with c :: _ => (c =? 65279)%N | [] => false end
  then Invalid "Unexpected UTF-8 BOM (decode using utf-8-sig)"
  else
    match scan_once (S (length s)) (skip_ws s) with
    | Scanned obj rest =>
        match skip_ws rest with
        | [] => Scanned obj []
        | _ :: _ => Invalid "Extra data"
        end
    | Invalid msg => Invalid msg
    | OutOfFuel => OutOfFuel
    end.

(** ** The process state and its effects *)

(** What the script reads and writes: the interpreter's message list,
    the two files, the console input, and the trace of effects. *)
Record world := mkWorld {
  oi_messages : pyval;          (* oi.messages *)
  fs_memory : node;             (* ai_memory.json *)
  fs_log : option string;       (* error_log.txt *)
  stdin : list string;          (* the lines still to be read *)
  trace : list event            (* the effects so far, oldest first *)
}.

(** A statement: from a state to a result and the state it leaves. *)
Definition M (A : Type) := world -> result A * world.

Definition ret {A} (a : A) : M A := fun w => (Return a, w).
Definition raise {A} (e : exn) : M A := fun w => (Raise e, w).
Definition bind {A B} (c : M A) (k : A -> M B) : M B :=
  fun w =>
    match c w with
    | (Return a, w') => k a w'
    | (Raise e, w') => (Raise e, w')
    end.

Declare Scope stmt_scope.
Delimit Scope stmt_scope with stmt.
Notation "x <- c ;; k" := (bind c (fun x => k))
  (at level 61, c at next level, right associativity) : stmt_scope.
Notation "c ;; k" := (bind c (fun _ => k))
  (at level 61, right associativity) : stmt_scope.

(** [try: body except Exception: handler] *)
Definition try_except_Exception {A} (body : M A) (handler : exn -> M A) : M A :=
  fun w =>
    match body w with
    | (Return a, w') => (Return a, w')
    | (Raise e, w') => if is_Exception e then handler e w' else (Raise e, w')
    end.

(** [try: body finally: final].  The result of [body] stands unless
    [final] raises. *)
Definition try_finally {A} (body : M A) (final : M unit) : M A :=
  fun w =>
    let (r, w') := body w in
    match final w' with
    | (Return _, w'') => (r, w'')
    | (Raise e, w'') => (Raise e, w'')
    end.

(** The updates of the state: an effect recorded, a field replaced. *)
Definition emit (ev : event) (w : world) : world :=
  mkWorld (oi_messages w) (fs_memory w) (fs_log w) (stdin w) (trace w ++ [ev]).

Definition set_messages (v : pyval) (w : world) : world :=
  mkWorld v (fs_memory w) (fs_log w) (stdin w) (trace w).

Definition set_memory (n : node) (w : world) : world :=
  mkWorld (oi_messages w) n (fs_log w) (stdin w) (trace w).

Definition set_log (l : option string) (w : world) : world :=
  mkWorld (oi_messages w) (fs_memory w) l (stdin w) (trace w).

(** [print(line)] *)
Definition print (line : string) : M unit :=
  fun w => (Return tt, emit (Print line) w).

(** [input(prompt)]: blocks for a line; [EOFError] at end of input. *)
Definition input (prompt : string) : M string :=
  fun w =>
    let w' := emit (Input prompt) w in
    match stdin w with
    | line :: rest =>
        (Return line,
         mkWorld (oi_messages w') (fs_memory w') (fs_log w') rest (trace w'))
    | [] => (Raise EOFError, w')
    end.

Definition DB_PATH : string := "ai_memory.json".
Definition LOG_PATH : string := "error_log.txt".

(** [os.path.exists(DB_PATH)] *)
Definition exists_DB_PATH : M bool :=
  fun w => (Return (match fs_memory w with Absent => false | _ => true end), w).

(** [open(DB_PATH, "r", encoding="utf-8")] and [f.read()] *)
Definition read_DB_PATH : M str :=
  fun w =>
    let w' := emit (Open DB_PATH "r") w in
    match fs_memory w with
    | TextFile content => (Return content, w')
    | _ => (Raise OSError, w')
    end.

(** [open(DB_PATH, "w", encoding="utf-8")]: the file is created or
    truncated. *)
Definition open_w_DB_PATH : M unit :=
  fun w => (Return tt, set_memory (TextFile []) (emit (Open DB_PATH "w") w)).

(** [f.write(chunk)] on the memory file.  The chunk is encoded as a
    whole: when it cannot be, nothing of it is written. *)
Definition write_DB_PATH (chunk : str) : M unit :=
  fun w =>
    if forallb utf8_encodable chunk then
      let old := match fs_memory w with TextFile t => t | _ => [] end in
      (Return tt, set_memory (TextFile (old ++ chunk)) (emit (WriteStr DB_PATH chunk) w))
    else (Raise UnicodeEncodeError, w).

(** The text of the crash log; none when the file is missing. *)
Definition log_text (l : option string) : string :=
  match l with
  | Some t => t
  | None => EmptyString
  end.

(** [open(LOG_PATH, "a", encoding="utf-8")]: the file is created when
    missing. *)
Definition open_a_LOG_PATH : M unit :=
  fun w =>
    (Return tt, set_log (Some (log_text (fs_log w))) (emit (Open LOG_PATH "a") w)).

(** [f.write(text)] on the crash log *)
Definition write_LOG_PATH (text : string) : M unit :=
  fun w =>
    (Return tt, set_log (Some (log_text (fs_log w) ++ text)%string)
                        (emit (Write LOG_PATH text) w)).

(** [json.load(f)]: the file is read and scanned; what the scanner
    rejects is raised as [JSONDecodeError].  The counters of the model
    never run out ([json_loads_total]); that branch stands for the
    interpreter's [RecursionError]. *)
Definition json_load : M pyval :=
  (s <- read_DB_PATH ;;
   match json_loads s with
   | Scanned obj _ => ret obj
   | Invalid msg => raise (JSONDecodeError msg)
   | OutOfFuel => raise (OtherException "RecursionError")
   end)%stmt.

(** [for chunk in iterable: fp.write(chunk)] *)
Fixpoint write_chunks (chunks : list str) : M unit :=
  match chunks with
  | [] => ret tt
  | chunk :: chunks' => (write_DB_PATH chunk ;; write_chunks chunks')%stmt
  end.

(** [json.dump(obj, f, indent=4, ensure_ascii=False)]: the chunks the
    encoder yields are written one by one; the encoder's exception, if
    any, comes after its last chunk. *)
Definition json_dump (obj : pyval) : M unit :=
  let (chunks, raised) := _iterencode obj 0 in
  (write_chunks chunks ;;
   match raised with
   | Some e => raise e
   | None => ret tt
   end)%stmt.

(** [len(obj)] *)
Definition len (obj : pyval) : M nat :=
  match obj with
  | PList lst => ret (length lst)
  | PDict dct => ret (length dct)
  | PStr s => ret (length s)
  | _ => raise (TypeError "object has no len()")
  end.

(** [str(n)] *)
Definition str_of_nat (n : nat) : string := NilEmpty.string_of_uint (Nat.to_uint n).

(** [s * n] *)
Fixpoint str_mul (s : string) (n : nat) : string :=
  match n with
  | O => EmptyString
  | S n' => (s ++ str_mul s n')%string
  end.

(** ["\n"] *)
Definition LF : string := String (ascii_of_nat 10) EmptyString.

(** The text [traceback.print_exc] writes for the exception being
    handled, and the interpreter's chat loop. *)
Variable format_exc : exn -> string.
Variable oi_chat : M unit.

(** [traceback.print_exc()] *)
Definition print_exc (e : exn) : M unit :=
  fun w => (Return tt, emit (Stderr (format_exc e)) w).

(** ** The script *)

(** [load_memory()] *)
Definition load_memory : M unit :=
  (found <- exists_DB_PATH ;;
   if found then
     obj <- json_load ;;
     (fun w => (Return tt, set_messages obj w)) ;;
     n <- (fun w => len (oi_messages w) w) ;;
     print ("--- Контекст загружен (" ++ str_of_nat n ++ " сообщений) ---")
   else ret tt)%stmt.

(** [save_memory()] *)
Definition save_memory : M unit :=
  (open_w_DB_PATH ;;
   (fun w => json_dump (oi_messages w) w) ;;
   print "--- Контекст сохранен в ai_memory.json ---")%stmt.

(** The body of [except Exception:], with the exception being
    handled. *)
Definition crash_handler (e : exn) : M unit :=
  (print (LF ++ str_mul "=" 50) ;;
   print "ПРОИЗОШЛА ОШИБКА ПРИ РАБОТЕ ЧАТА:" ;;
   print (str_mul "=" 50) ;;
   print_exc e ;;
   open_a_LOG_PATH ;;
   write_LOG_PATH (LF ++ "--- NEW CRASH ---" ++ LF) ;;
   write_LOG_PATH (format_exc e) ;;
   print (str_mul "=" 50) ;;
   print "Детали ошибки сохранены в файл error_log.txt" ;;
   _ <- input "Нажми Enter, чтобы закрыть..." ;;
   ret tt)%stmt.

(** The [try ... except Exception] statement, without its [finally]. *)
Definition chat_guarded : M unit :=
  try_except_Exception
    (print "Бот запущен. Введи команду..." ;; oi_chat)%stmt
    crash_handler.

(** [start_with_logging()] *)
Definition start_with_logging : M unit :=
  (load_memory ;;
   try_finally chat_guarded save_memory)%stmt.

(** ** Notions the statements use *)

(** [json.dumps(obj, indent=4, ensure_ascii=False)]: the chunks joined,
    or the encoder's exception. *)
Definition json_dumps (obj : pyval) : result str :=
  let (chunks, raised) := _iterencode obj 0 in
  match raised with
  | Some e => Raise e
  | None => Return (concat chunks)
  end.

(** The chunks [write_chunks] gets onto the disk: those before the first
    one that cannot be encoded. *)
Fixpoint writable (chunks : list str) : list str :=
  match chunks with
  | [] => []
  | chunk :: chunks' =>
      if forallb utf8_encodable chunk then chunk :: writable chunks' else []
  end.

(** What one crash appends to the log: the marker line, then the
    traceback. *)
Definition crash_block (e : exn) : string :=
  (LF ++ "--- NEW CRASH ---" ++ LF ++ format_exc e)%string.

(** The effects of the [except] branch, in order. *)
Definition crash_events (e : exn) : list event :=
  [ Print (LF ++ str_mul "=" 50);
    Print "ПРОИЗОШЛА ОШИБКА ПРИ РАБОТЕ ЧАТА:";
    Print (str_mul "=" 50);
    Stderr (format_exc e);
    Open LOG_PATH "a";
    Write LOG_PATH (LF ++ "--- NEW CRASH ---" ++ LF);
    Write LOG_PATH (format_exc e);
    Print (str_mul "=" 50);
    Print "Детали ошибки сохранены в файл error_log.txt";
    Input "Нажми Enter, чтобы закрыть..." ].

(** The state in which the chat loop is called: the start banner has
    been printed. *)
Definition chat_entry (w : world) : world :=
  emit (Print "Бот запущен. Введи команду...") w.

(** A new process: the interpreter starts with its default, empty
    message list; the files stay. *)
Definition restart (w : world) : world := set_messages (PList []) w.

(** The state a call of [save_memory] leaves, given the events that
    follow the writes. *)
Definition saved (w : world) (tail : list event) : world :=
  let done := writable (fst (_iterencode (oi_messages w) 0)) in
  mkWorld (oi_messages w) (TextFile (concat done)) (fs_log w) (stdin w)
          (trace w ++ Open DB_PATH "w" :: map (WriteStr DB_PATH) done ++ tail).

Definition saved_notice : event := Print "--- Контекст сохранен в ai_memory.json ---".

(** What follows a value in the encoder's output: the end of the text,
    a comma or a line feed. *)
Definition delimited (rest : str) : bool :=
  match rest with
  | [] => true
  | c :: _ => ((c =? 44) || (c =? 10))%N
  end.

(** The chunks of a generator joined, and the text the encoder writes
    for a value at an indent level. *)
Definition text (g : gen) : str := concat (fst g).

Definition enc (v : pyval) (lvl : nat) : str := text (_iterencode v lvl).

(** The text written for a float scans back to that float. *)
Definition float_reads_back (f : pyfloat) : Prop :=
  forall fuel rest,
    delimited rest = true ->
    scan_once (S fuel) (floatstr f ++ rest) = Scanned (PFloat f) rest.

(** The value holds no object the encoder rejects. *)
Fixpoint serializable (v : pyval) : bool :=
  match v with
  | PList lst => forallb serializable lst
  | PDict dct => forallb (fun kv => serializable (snd kv)) dct
  | PObject _ => false
  | _ => true
  end.

(** The keys of every dictionary in the value differ from one another,
    as they do in a Python [dict]. *)
Fixpoint distinct (keys : list str) : bool :=
  match keys with
  | [] => true
  | k :: ks => negb (existsb (str_eqb k) ks) && distinct ks
  end.

Fixpoint keys_distinct (v : pyval) : bool :=
  match v with
  | PList lst => forallb keys_distinct lst
  | PDict dct =>
      distinct (map fst dct) && forallb (fun kv => keys_distinct (snd kv)) dct
  | _ => true
  end.

(** Every float in the value is written as text that scans back to
    it. *)
Fixpoint floats_read_back (v : pyval) : Prop :=
  match v with
  | PFloat f => float_reads_back f
  | PList lst => fold_right (fun x P => floats_read_back x /\ P) True lst
  | PDict dct => fold_right (fun kv P => floats_read_back (snd kv) /\ P) True dct
  | _ => True
  end.

(** Induction on values, through the lists and dictionaries they
    nest. *)
Section pyval_induction.

Variable P : pyval -> Prop.
Hypothesis HNone : P PNone.
Hypothesis HBool : forall b, P (PBool b).
Hypothesis HInt : forall z, P (PInt z).
Hypothesis HFloat : forall f, P (PFloat f).
Hypothesis HStr : forall s, P (PStr s).
Hypothesis HList : forall lst, Forall P lst -> P (PList lst).
Hypothesis HDict : forall dct, Forall (fun kv => P (snd kv)) dct -> P (PDict dct).
Hypothesis HObject : forall name, P (PObject name).

Fixpoint pyval_ind' (v : pyval) : P v :=
  match v with
  | PNone => HNone
  | PBool b => HBool b
  | PInt z => HInt z
  | PFloat f => HFloat f
  | PStr s => HStr s
  | PList lst =>
      HList lst
        ((fix all (l : list pyval) : Forall P l :=
            match l with
            | [] => Forall_nil P
            | x :: l' => Forall_cons x (pyval_ind' x) (all l')
            end) lst)
  | PDict dct =>
      HDict dct
        ((fix all (l : list (str * pyval)) : Forall (fun kv => P (snd kv)) l :=
            match l with
            | [] => Forall_nil _
            | kv :: l' => Forall_cons kv (pyval_ind' (snd kv)) (all l')
            end) dct)
  | PObject name => HObject name
  end.

End pyval_induction.

(** The characters a JSON value can start with. *)
Definition value_start (c : codepoint) : bool :=
  (is_digit c || (c =? 45) || (c =? 34) || (c =? 123) || (c =? 91)
   || (c =? 110) || (c =? 116) || (c =? 102)
   || (c =? 78) || (c =? 73))%N.

(** The text of the items of a list, and of a dictionary, between the
    indents that open and close them. *)
Fixpoint items_text (L : nat) (sep : str) (l : list pyval) : str :=
  match l with
  | [] => []
  | v :: l' =>
      enc v L ++ match l' with
                 | [] => []
                 | _ :: _ => sep ++ items_text L sep l'
                 end
  end.

Fixpoint pairs_text (L : nat) (sep : str) (d : list (str * pyval)) : str :=
  match d with
  | [] => []
  | (k, v) :: d' =>
      encode_basestring k ++ lit ": " ++ enc v L
      ++ match d' with
         | [] => []
         | _ :: _ => sep ++ pairs_text L sep d'
         end
  end.

(** What the induction carries for a value. *)
Definition reads_back (v : pyval) : Prop :=
  forall lvl,
    snd (_iterencode v lvl) = None /\
    forall fuel rest,
      length (enc v lvl) <= fuel -> delimited rest = true ->
      scan_once fuel (enc v lvl ++ rest) = Scanned v rest.

(** What [json.load] builds: values the encoder accepts, with distinct
    keys. *)
Definition well_formed (v : pyval) : Prop :=
  serializable v = true /\ keys_distinct v = true.

(** The state in which the [try] statement is left for the [finally]
    clause, given how the chat loop ended. *)
Definition after_try (r : result unit) (wc : world) : world :=
  match r with
  | Return _ => wc
  | Raise e => if is_Exception e then snd (crash_handler e wc) else wc
  end.

(** The state [load_memory] leaves after reading [n] messages. *)
Definition loaded (w : world) (obj : pyval) (n : nat) : world :=
  mkWorld obj (fs_memory w) (fs_log w) (stdin w)
          (trace w ++ [Open DB_PATH "r";
                       Print ("--- Контекст загружен (" ++ str_of_nat n
                              ++ " сообщений) ---")]).

(** ** Sample runs *)

(** A message list as the interpreter keeps it, a chat loop that leaves
    a message list and raises, one that leaves a message list and
    returns, and the state of a new process (one line of input waits at
    the console). *)
Definition sample_messages : pyval :=
  PList [PDict [(lit "role", PStr (lit "user"));
                (lit "content", PStr (lit "hello"))]].

(** A message whose content is the lone surrogate U+D800, as
    [json.load] yields it for that escape written in a file. *)
Definition surrogate_message : pyval :=
  PDict [(lit "role", PStr (lit "user")); (lit "content", PStr [55296%N])].

Definition chat_raising (e : exn) (messages : pyval) : M unit :=
  fun w => (Raise e, set_messages messages w).

Definition chat_returning (messages : pyval) : M unit :=
  fun w => (Return tt, set_messages messages w).

Definition new_process (memory : node) (log : option string) : world :=
  mkWorld (PList []) memory log [EmptyString] [].

(** A scanner that, on texts no longer than [bound], never runs out and
    consumes at least one character when it succeeds. *)
Definition steady (scan : str -> scanned pyval) (bound : nat) : Prop :=
  forall s, length s <= bound ->
    scan s <> OutOfFuel
    /\ forall v r, scan s = Scanned v r -> length r < length s.

(** ** Notions for the further properties *)

(** [hasattr(obj, "__len__")] on the values of the model: lists,
    dictionaries and strings have a length, the others have none. *)
Definition sized (obj : pyval) : bool :=
  match obj with
  | PList _ | PDict _ | PStr _ => true
  | _ => false
  end.

(** The types of the objects of a value that the encoder has no case
    for, in the order in which the encoder meets them. *)
Fixpoint unsupported (v : pyval) : list string :=
  match v with
  | PObject type_name => [type_name]
  | PList lst => flat_map unsupported lst
  | PDict dct => flat_map (fun kv => unsupported (snd kv)) dct
  | _ => []
  end.

(** The exception of a generator that raises at the first of these
    objects. *)
Definition first_raise (names : list string) : option exn :=
  match names with
  | [] => None
  | type_name :: _ => Some (not_serializable type_name)
  end.

(** The characters [ESCAPE] does not match: [encode_basestring] writes
    them as they are. *)
Definition unescaped (c : codepoint) : bool :=
  (negb (c <? 32) && negb (c =? 34) && negb (c =? 92))%N.





(** ** The effects of [save_memory] *)

Lemma write_chunks_spec (chunks : list str) :
  forall w t,
    fs_memory w = TextFile t ->
    write_chunks chunks w =
      (if forallb (forallb utf8_encodable) chunks
       then Return tt else Raise UnicodeEncodeError,
       mkWorld (oi_messages w) (TextFile (t ++ concat (writable chunks)))
               (fs_log w) (stdin w)
               (trace w ++ map (WriteStr DB_PATH) (writable chunks))).
Proof.
  induction chunks as [|chunk chunks IH]; intros w t Hm; simpl.
  - unfold ret. rewrite !List.app_nil_r. destruct w; simpl in *; congruence.
  - unfold bind, write_DB_PATH.
    destruct (forallb utf8_encodable chunk) eqn:Hc; simpl.
    + rewrite Hm.
      rewrite (IH _ (t ++ chunk)) by reflexivity. simpl.
      rewrite <- !List.app_assoc. reflexivity.
    + rewrite !List.app_nil_r. destruct w; simpl in *; congruence.
Qed.


Lemma save_memory_spec (w : world) :
  save_memory w =
    if forallb (forallb utf8_encodable) (fst (_iterencode (oi_messages w) 0))
    then match snd (_iterencode (oi_messages w) 0) with
         | None => (Return tt, saved w [saved_notice])
         | Some e => (Raise e, saved w [])
         end
    else (Raise UnicodeEncodeError, saved w []).
Proof.
  unfold save_memory, saved, bind, open_w_DB_PATH, json_dump. simpl.
  destruct (_iterencode (oi_messages w) 0) as [chunks raised]. simpl.
  unfold bind.
  rewrite (write_chunks_spec chunks _ []) by reflexivity. simpl.
  destruct (forallb (forallb utf8_encodable) chunks); simpl.
  - destruct raised; simpl; unfold raise, ret, print, emit; simpl;
      rewrite <- ?List.app_assoc; simpl; rewrite ?List.app_nil_r; reflexivity.
  - rewrite <- List.app_assoc, List.app_nil_r. reflexivity.
Qed.

(** ** Strings read back *)

Lemma below_32_cases (P : N -> Prop) :
  (forall n, (n < 32)%nat -> P (N.of_nat n)) ->
  forall c, (c < 32)%N -> P c.
Proof.
  intros H c Hc. rewrite <- (N2Nat.id c). apply H. lia.
Qed.

Lemma scanstring_escape_char (c : codepoint) (s : str) :
  scanstring (escape_char c ++ s) = append_char c (scanstring s).
Proof.
  unfold escape_char, ESCAPE_DCT.
  destruct (c =? 92)%N eqn:E92; [apply N.eqb_eq in E92; subst; reflexivity|].
  destruct (c =? 34)%N eqn:E34; [apply N.eqb_eq in E34; subst; reflexivity|].
  destruct (c =? 8)%N eqn:E8; [apply N.eqb_eq in E8; subst; reflexivity|].
  destruct (c =? 12)%N eqn:E12; [apply N.eqb_eq in E12; subst; reflexivity|].
  destruct (c =? 10)%N eqn:E10; [apply N.eqb_eq in E10; subst; reflexivity|].
  destruct (c =? 13)%N eqn:E13; [apply N.eqb_eq in E13; subst; reflexivity|].
  destruct (c =? 9)%N eqn:E9; [apply N.eqb_eq in E9; subst; reflexivity|].
  destruct (c <? 32)%N eqn:E32.
  - apply N.ltb_lt in E32. clear - E32. revert c E32.
    apply below_32_cases. intros n Hn.
    do 32 (destruct n as [|n]; [reflexivity|]). lia.
  - simpl. unfold QUOTE, BACKSLASH. rewrite E34, E92, E32. reflexivity.
Qed.

Lemma scanstring_encode (s rest : str) :
  scanstring (flat_map escape_char s ++ QUOTE :: rest) = Scanned s rest.
Proof.
  induction s as [|c s IH]; simpl.
  - reflexivity.
  - rewrite <- List.app_assoc, scanstring_escape_char, IH. reflexivity.
Qed.

(** ** Integers read back *)


Lemma delimited_cases (rest : str) :
  delimited rest = true ->
  rest = [] \/ exists r, rest = 44%N :: r \/ rest = 10%N :: r.
Proof.
  destruct rest as [|c r]; simpl; intros H; [now left|right].
  exists r. apply orb_true_iff in H. destruct H as [H|H]; apply N.eqb_eq in H; subst; auto.
Qed.

Lemma span_digits_uint (d : Decimal.uint) (rest : str) :
  delimited rest = true ->
  span_digits (uint_digits d ++ rest) = (uint_digits d, rest).
Proof.
  intros Hr. induction d; simpl; try (rewrite IHd; reflexivity).
  destruct (delimited_cases rest Hr) as [->|[r [->| ->]]]; reflexivity.
Qed.

Lemma digits_uint_digits (d : Decimal.uint) : digits_uint (uint_digits d) = d.
Proof.
  induction d; simpl; try reflexivity;
    unfold digits_uint in *; simpl; rewrite IHd; reflexivity.
Qed.

Lemma to_uint_not_D0 (p : positive) (d : Decimal.uint) : Pos.to_uint p <> D0 d.
Proof.
  intros H.
  assert (Hn : Pos.to_uint p = unorm (Pos.to_uint p)).
  { rewrite <- (Unsigned.to_of (Pos.to_uint p)), Unsigned.of_to. reflexivity. }
  rewrite H in Hn. rewrite unorm_D0 in Hn.
  unfold unorm in Hn. destruct (nzhead d) eqn:E; try discriminate.
  - inversion Hn; subst. apply (Unsigned.to_uint_nonzero p). exact H.
  - exact (nzhead_nonzero d u E).
Qed.

Lemma uint_digits_head (p : positive) :
  exists c ds, uint_digits (Pos.to_uint p) = c :: ds /\ is_digit c = true.
Proof.
  pose proof (Unsigned.to_uint_nonnil p) as Hn.
  destruct (Pos.to_uint p); [congruence|..]; simpl;
    eexists _, _; split; reflexivity.
Qed.

Lemma parse_int_repr (z : Z) : parse_int (int_repr z) = z.
Proof.
  destruct z as [|p|p]; [reflexivity| |].
  - unfold int_repr.
    destruct (uint_digits_head p) as (c & ds & E & Hc).
    assert (H45 : (c =? 45)%N = false).
    { destruct (c =? 45)%N eqn:E45; [|reflexivity].
      apply N.eqb_eq in E45. subst. discriminate. }
    rewrite E. unfold parse_int. rewrite H45, <- E.
    rewrite digits_uint_digits, Unsigned.of_to. reflexivity.
  - unfold int_repr, parse_int. cbn [N.eqb Pos.eqb].
    rewrite digits_uint_digits, Unsigned.of_to. reflexivity.
Qed.

Lemma match_number_int_repr (z : Z) (rest : str) :
  delimited rest = true ->
  match_number (int_repr z ++ rest) = Some (int_repr z, [], [], rest).
Proof.
  intros Hr.
  assert (Hfrac : match_frac rest = ([], rest)).
  { destruct (delimited_cases rest Hr) as [->|[r [->| ->]]];
      try reflexivity; destruct r; reflexivity. }
  assert (Hexp : match_exp rest = ([], rest)).
  { destruct (delimited_cases rest Hr) as [->|[r [->| ->]]]; reflexivity. }
  assert (Hi : match_integer (int_repr z ++ rest) = Some (int_repr z, rest)).
  { destruct z as [|p|p]; [reflexivity| |]; unfold int_repr;
      pose proof (to_uint_not_D0 p) as H0;
      pose proof (Unsigned.to_uint_nonnil p) as Hn;
      (destruct (Pos.to_uint p) as [|d|d|d|d|d|d|d|d|d|d];
       [congruence | exfalso; eapply H0; reflexivity | ..]);
      unfold match_integer; simpl;
      rewrite (span_digits_uint d rest Hr); reflexivity. }
  unfold match_number. rewrite Hi, Hfrac, Hexp. reflexivity.
Qed.

Lemma int_repr_head (z : Z) :
  exists c ds, int_repr z = c :: ds /\ (is_digit c || (c =? 45))%N = true.
Proof.
  destruct z as [|p|p]; simpl.
  - exists 48%N, []. split; reflexivity.
  - pose proof (Unsigned.to_uint_nonnil p) as Hn.
    destruct (Pos.to_uint p); [congruence|..]; simpl;
      eexists _, _; split; reflexivity.
  - eexists _, _; split; reflexivity.
Qed.

Lemma scan_once_number (c : codepoint) (s integer rest : str) (fuel : nat) :
  (is_digit c || (c =? 45))%N = true ->
  match_number (c :: s) = Some (integer, [], [], rest) ->
  scan_once (S fuel) (c :: s) = Scanned (PInt (parse_int integer)) rest.
Proof.
  intros Hc Hm.
  assert (Hne : forall k, (is_digit k || (k =? 45))%N = false -> (c =? k)%N = false).
  { intros k Hk. destruct (c =? k)%N eqn:E; [|reflexivity].
    apply N.eqb_eq in E. subst. congruence. }
  assert (Hne' : forall k, (is_digit k || (k =? 45))%N = false -> (k =? c)%N = false).
  { intros k Hk. rewrite N.eqb_sym. auto. }
  cbn [scan_once]. unfold QUOTE.
  rewrite !Hne by reflexivity.
  change (lit "null") with [110; 117; 108; 108]%N.
  change (lit "true") with [116; 114; 117; 101]%N.
  change (lit "false") with [102; 97; 108; 115; 101]%N.
  cbn [after_word].
  rewrite !Hne' by reflexivity.
  rewrite Hm. reflexivity.
Qed.

Lemma scan_once_int (z : Z) (fuel : nat) (rest : str) :
  delimited rest = true ->
  scan_once (S fuel) (int_repr z ++ rest) = Scanned (PInt z) rest.
Proof.
  intros Hr.
  pose proof (match_number_int_repr z rest Hr) as Hm.
  destruct (int_repr_head z) as (c & ds & E & Hc).
  rewrite E in Hm |- *. rewrite <- List.app_comm_cons in Hm |- *.
  rewrite (scan_once_number c _ _ _ fuel Hc Hm).
  rewrite <- E, parse_int_repr. reflexivity.
Qed.

(** ** Round trip through the encoder and the scanner *)








Lemma text_yield (chunk : str) : text (yield chunk) = chunk.
Proof. unfold text, yield. simpl. apply List.app_nil_r. Qed.

Lemma gseq_snd (g1 g2 : gen) : snd g1 = None -> snd (gseq g1 g2) = snd g2.
Proof. unfold gseq. intros ->. reflexivity. Qed.

Lemma gseq_text (g1 g2 : gen) :
  snd g1 = None -> text (gseq g1 g2) = text g1 ++ text g2.
Proof. unfold gseq, text. intros ->. apply concat_app. Qed.

Lemma iterencode_atom (v : pyval) (t : str) (lvl : nat) :
  atom_text v = Some t -> _iterencode v lvl = yield t.
Proof.
  destruct v as [|b|z|f|s|l|d|n]; simpl; try discriminate; intros H;
    try (destruct b; simpl in H); inversion H; reflexivity.
Qed.

Lemma skip_ws_spaces (n : nat) (s : str) : skip_ws (spaces n ++ s) = skip_ws s.
Proof. induction n; simpl; auto. Qed.

Lemma skip_ws_newline_indent (n : nat) (s : str) :
  skip_ws (10%N :: spaces n ++ s) = skip_ws s.
Proof. simpl. apply skip_ws_spaces. Qed.

Lemma skip_ws_indent_app (n : nat) (s : str) :
  skip_ws ((10%N :: spaces n) ++ s) = skip_ws s.
Proof. apply skip_ws_newline_indent. Qed.


Lemma after_word_head (w c : codepoint) (word s r : str) :
  after_word (w :: word) (c :: s) = Some r -> c = w.
Proof.
  simpl. destruct (w =? c)%N eqn:E; [|discriminate].
  intros _. apply N.eqb_eq in E. auto.
Qed.

Lemma match_number_head (c : codepoint) (s : str) r :
  match_number (c :: s) = Some r -> (is_digit c || (c =? 45))%N = true.
Proof.
  unfold match_number, match_integer.
  destruct (c =? 45)%N eqn:E; [intros _; apply orb_true_r|].
  destruct (c =? 48)%N eqn:E0.
  - apply N.eqb_eq in E0. subst. reflexivity.
  - destruct (is_digit c); [reflexivity|discriminate].
Qed.

Lemma scan_once_head (fuel : nat) (s : str) (v : pyval) (r : str) :
  scan_once fuel s = Scanned v r ->
  exists c s', s = c :: s' /\ value_start c = true.
Proof.
  destruct fuel as [|fuel]; [discriminate|].
  destruct s as [|c s]; [discriminate|].
  intros H. exists c, s. split; [reflexivity|].
  unfold value_start.
  destruct (c =? 34)%N eqn:E1; [rewrite ?orb_true_r; reflexivity|].
  destruct (c =? 123)%N eqn:E2; [rewrite ?orb_true_r; reflexivity|].
  destruct (c =? 91)%N eqn:E3; [rewrite ?orb_true_r; reflexivity|].
  cbn [scan_once] in H. unfold QUOTE in H. rewrite E1, E2, E3 in H.
  destruct (after_word (lit "null") (c :: s)) eqn:A1.
  { apply after_word_head in A1. subst. reflexivity. }
  destruct (after_word (lit "true") (c :: s)) eqn:A2.
  { apply after_word_head in A2. subst. reflexivity. }
  destruct (after_word (lit "false") (c :: s)) eqn:A3.
  { apply after_word_head in A3. subst. reflexivity. }
  destruct (match_number (c :: s)) eqn:A4.
  { apply match_number_head in A4. rewrite A4. reflexivity. }
  destruct (after_word (lit "NaN") (c :: s)) eqn:A5.
  { apply after_word_head in A5. subst. reflexivity. }
  destruct (after_word (lit "Infinity") (c :: s)) eqn:A6.
  { apply after_word_head in A6. subst. reflexivity. }
  destruct (after_word (lit "-Infinity") (c :: s)) eqn:A7.
  { apply after_word_head in A7. subst. reflexivity. }
  discriminate.
Qed.

Lemma value_start_facts (c : codepoint) :
  value_start c = true ->
  is_whitespace c = false /\ (c =? 93)%N = false /\ (c =? 125)%N = false
  /\ (c =? 65279)%N = false.
Proof.
  unfold value_start, is_digit, is_whitespace. intros H.
  repeat split;
    repeat match goal with
      | |- (_ || _)%bool = false => apply orb_false_iff; split
      | |- (_ =? _)%N = false => apply N.eqb_neq; intros ->; discriminate
      end.
Qed.

Lemma skip_ws_value (fuel : nat) (s : str) (v : pyval) (r : str) :
  scan_once fuel s = Scanned v r -> skip_ws s = s.
Proof.
  intros H. destruct (scan_once_head _ _ _ _ H) as (c & s' & -> & Hc).
  apply value_start_facts in Hc. destruct Hc as [Hw _].
  simpl. rewrite Hw. reflexivity.
Qed.





Lemma item_chunks (v : pyval) (L : nat) (buf : str) :
  snd (_iterencode v L) = None ->
  let g := match atom_text v with
           | Some t => yield (buf ++ t)
           | None => gseq (yield buf) (_iterencode v L)
           end in
  snd g = None /\ text g = buf ++ enc v L.
Proof.
  intros Hv. destruct (atom_text v) as [t|] eqn:Ha; cbn zeta.
  - split; [reflexivity|]. rewrite text_yield. unfold enc.
    rewrite (iterencode_atom v t L Ha), text_yield. reflexivity.
  - rewrite gseq_snd, gseq_text, text_yield by reflexivity. auto.
Qed.

Lemma value_chunks (v : pyval) (L : nat) :
  snd (_iterencode v L) = None ->
  let g := match atom_text v with
           | Some t => yield t
           | None => _iterencode v L
           end in
  snd g = None /\ text g = enc v L.
Proof.
  intros Hv. destruct (atom_text v) as [t|] eqn:Ha; cbn zeta.
  - unfold enc. rewrite (iterencode_atom v t L Ha). auto.
  - auto.
Qed.

Lemma list_items_text (L : nat) (sep : str) (l : list pyval) :
  forall buf,
    Forall (fun v => snd (_iterencode v L) = None) l ->
    snd (_iterencode_list_items (fun value => _iterencode value L) sep l buf) = None
    /\ text (_iterencode_list_items (fun value => _iterencode value L) sep l buf)
       = match l with
         | [] => []
         | _ :: _ => buf ++ items_text L sep l
         end.
Proof.
  induction l as [|v l IH]; intros buf Hl; [split; reflexivity|].
  inversion Hl as [|? ? Hv Hl']; subst.
  destruct (IH sep Hl') as [IH1 IH2].
  destruct (item_chunks v L buf Hv) as [H1 H2]. cbn zeta in H1, H2.
  cbn [_iterencode_list_items].
  rewrite gseq_snd, gseq_text by exact H1.
  rewrite H2, IH1, IH2. split; [reflexivity|].
  cbn [items_text]. rewrite <- List.app_assoc. destruct l; reflexivity.
Qed.

Lemma dict_items_text (L : nat) (sep : str) (d : list (str * pyval)) :
  forall first,
    Forall (fun kv => snd (_iterencode (snd kv) L) = None) d ->
    snd (_iterencode_dict_items (fun value => _iterencode value L) sep d first) = None
    /\ text (_iterencode_dict_items (fun value => _iterencode value L) sep d first)
       = match d with
         | [] => []
         | _ :: _ => (if first then [] else sep) ++ pairs_text L sep d
         end.
Proof.
  induction d as [|[k v] d IH]; intros first Hd; [split; reflexivity|].
  inversion Hd as [|? ? Hv Hd']; subst. simpl in Hv.
  destruct (IH false Hd') as [IH1 IH2].
  destruct (value_chunks v L Hv) as [V1 V2]. cbn zeta in V1, V2.
  assert (F : snd (if first then ([] : list str, None) else yield sep) = None)
    by (destruct first; reflexivity).
  assert (E : text (if first then ([] : list str, None) else yield sep)
              = if first then [] else sep).
  { destruct first; [reflexivity|apply text_yield]. }
  cbn [_iterencode_dict_items].
  rewrite !gseq_snd by first [exact F | exact V1 | reflexivity].
  rewrite !gseq_text by first [exact F | exact V1 | reflexivity].
  rewrite E, V2, IH1, IH2, !text_yield. split; [reflexivity|].
  reflexivity.
Qed.

Lemma array_items_reads (f L k : nat) (rest : str) :
  forall l acc n,
    l <> [] ->
    Forall (fun v => forall rest', delimited rest' = true ->
                       scan_once f (enc v L ++ rest') = Scanned v rest') l ->
    length l <= n ->
    array_items (scan_once f) n
      (items_text L (44%N :: 10%N :: spaces (4 * L)) l
       ++ 10%N :: spaces k ++ 93%N :: rest) acc
    = Scanned (PList (acc ++ l)) rest.
Proof.
  induction l as [|v l IH]; intros acc n Hne Hl Hn; [congruence|].
  inversion Hl as [|? ? Hv Hl']; subst.
  destruct n as [|n]; [simpl in Hn; lia|].
  cbn [array_items items_text]. rewrite <- List.app_assoc.
  destruct l as [|v' l].
  - rewrite Hv by reflexivity.
    cbn [List.app]. rewrite skip_ws_newline_indent. reflexivity.
  - rewrite Hv by reflexivity.
    set (tail := 10%N :: spaces k ++ 93%N :: rest) in *.
    set (sep := 44%N :: 10%N :: spaces (4 * L)) in *.
    assert (Hskip : skip_ws (items_text L sep (v' :: l) ++ tail)
                    = items_text L sep (v' :: l) ++ tail).
    { inversion Hl' as [|? ? Hv' _]; subst.
      cbn [items_text]. rewrite <- List.app_assoc.
      eapply skip_ws_value. apply Hv'.
      destruct l; reflexivity. }
    unfold sep at 1. cbn [List.app skip_ws is_whitespace N.eqb Pos.eqb orb].
    rewrite <- List.app_assoc. rewrite skip_ws_spaces, Hskip.
    rewrite IH; [|discriminate|assumption|simpl in Hn |- *; lia].
    rewrite <- List.app_assoc. reflexivity.
Qed.

Lemma pairs_text_quote (L : nat) (sep : str) (d : list (str * pyval)) :
  d <> [] -> pairs_text L sep d = QUOTE :: tl (pairs_text L sep d).
Proof. destruct d as [|[k v] d]; [congruence|reflexivity]. Qed.

Lemma object_items_reads (f L k : nat) (rest : str) :
  forall d acc n,
    d <> [] ->
    Forall (fun kv => forall rest', delimited rest' = true ->
                        scan_once f (enc (snd kv) L ++ rest')
                        = Scanned (snd kv) rest') d ->
    length d <= n ->
    object_items (scan_once f) n
      (tl (pairs_text L (44%N :: 10%N :: spaces (4 * L)) d)
       ++ 10%N :: spaces k ++ 125%N :: rest) acc
    = Scanned (PDict (dict (acc ++ d))) rest.
Proof.
  induction d as [|[key v] d IH]; intros acc n Hne Hd Hn; [congruence|].
  inversion Hd as [|? ? Hv Hd']; subst. simpl in Hv.
  destruct n as [|n]; [simpl in Hn; lia|].
  set (tail := 10%N :: spaces k ++ 125%N :: rest) in *.
  set (sep := 44%N :: 10%N :: spaces (4 * L)) in *.
  assert (Hafter : forall more,
    tl (encode_basestring key ++ lit ": " ++ enc v L ++ more) ++ tail
    = flat_map escape_char key ++ QUOTE :: 58%N :: 32%N :: enc v L ++ more ++ tail).
  { intros more. unfold encode_basestring. cbn [List.app tl].
    rewrite <- !List.app_assoc. reflexivity. }
  assert (Hval : forall more, delimited (more ++ tail) = true ->
    scan_once f (skip_ws (enc v L ++ more ++ tail)) = Scanned v (more ++ tail)).
  { intros more Hm.
    rewrite (skip_ws_value f _ v (more ++ tail)); apply Hv; exact Hm. }
  cbn [object_items pairs_text].
  rewrite Hafter, scanstring_encode.
  cbn [skip_ws is_whitespace N.eqb Pos.eqb orb negb].
  destruct d as [|kv' d].
  - pose proof (Hval [] eq_refl) as Hv0. cbn [List.app] in Hv0 |- *.
    rewrite Hv0. unfold tail at 1. rewrite skip_ws_newline_indent. reflexivity.
  - rewrite Hval by reflexivity.
    unfold sep at 1. cbn [List.app skip_ws is_whitespace N.eqb Pos.eqb orb].
    rewrite <- List.app_assoc, skip_ws_spaces.
    rewrite (pairs_text_quote L sep (kv' :: d)) by discriminate.
    cbn [List.app skip_ws is_whitespace N.eqb Pos.eqb orb QUOTE].
    rewrite IH; [|discriminate|assumption|simpl in Hn |- *; lia].
    rewrite <- List.app_assoc. reflexivity.
Qed.

Lemma str_eqb_eq (a b : str) : str_eqb a b = true <-> a = b.
Proof.
  revert b. induction a as [|x a IH]; intros [|y b]; simpl; split;
    try discriminate; try reflexivity.
  - intros H. apply andb_true_iff in H. destruct H as [H1 H2].
    apply N.eqb_eq in H1. apply IH in H2. congruence.
  - intros H. inversion H; subst. rewrite N.eqb_refl. apply IH. reflexivity.
Qed.

Lemma distinct_NoDup (keys : list str) : distinct keys = true <-> NoDup keys.
Proof.
  induction keys as [|k ks IH]; simpl.
  - split; [constructor|reflexivity].
  - rewrite andb_true_iff, negb_true_iff, IH. split.
    + intros [H1 H2]. constructor; [|assumption].
      intros Hin. assert (existsb (str_eqb k) ks = true).
      { apply existsb_exists. exists k. split; [assumption|]. apply str_eqb_eq. reflexivity. }
      congruence.
    + intros H. inversion H as [|? ? Hn Hd]; subst. split; [|assumption].
      destruct (existsb (str_eqb k) ks) eqn:E; [|reflexivity].
      apply existsb_exists in E. destruct E as (x & Hx & He).
      apply str_eqb_eq in He. subst. contradiction.
Qed.

Lemma dict_set_fresh (d : list (str * pyval)) (key : str) (value : pyval) :
  ~ In key (map fst d) -> dict_set d key value = d ++ [(key, value)].
Proof.
  induction d as [|[k v] d IH]; simpl; intros Hn; [reflexivity|].
  destruct (str_eqb k key) eqn:E.
  - apply str_eqb_eq in E. subst. exfalso. apply Hn. now left.
  - rewrite IH; [reflexivity|]. intros H. apply Hn. now right.
Qed.

Lemma dict_distinct (pairs : list (str * pyval)) :
  distinct (map fst pairs) = true -> dict pairs = pairs.
Proof.
  intros H. apply distinct_NoDup in H. unfold dict.
  enough (G : forall l acc, NoDup (map fst (acc ++ l)) ->
              fold_left (fun d kv => dict_set d (fst kv) (snd kv)) l acc = acc ++ l)
    by (apply (G pairs []); exact H).
  induction l as [|[k v] l IH]; intros acc Hnd; simpl.
  - symmetry. apply List.app_nil_r.
  - rewrite dict_set_fresh.
    + rewrite IH; rewrite <- List.app_assoc; [reflexivity|exact Hnd].
    + rewrite map_app in Hnd. simpl in Hnd.
      apply NoDup_remove_2 in Hnd. intros Hin. apply Hnd.
      apply in_or_app. now left.
Qed.

Lemma reads_back_nonempty (v : pyval) (L : nat) :
  reads_back v -> enc v L <> [].
Proof.
  intros H E. destruct (H L) as [_ Hs].
  specialize (Hs (length (enc v L)) [] (le_n _) eq_refl).
  rewrite E in Hs. discriminate.
Qed.

Lemma items_text_length (L : nat) (sep : str) (l : list pyval) :
  Forall (fun v => enc v L <> []) l ->
  length l <= length (items_text L sep l)
  /\ Forall (fun v => length (enc v L) <= length (items_text L sep l)) l.
Proof.
  induction l as [|v l IH]; intros Hl; [split; [apply le_n|constructor]|].
  inversion Hl as [|? ? Hv Hl']; subst.
  destruct (IH Hl') as [IH1 IH2].
  cbn [items_text]. rewrite length_app.
  assert (1 <= length (enc v L)) by (destruct (enc v L); [congruence|simpl; lia]).
  split.
  - destruct l; simpl in *; [lia|]. rewrite length_app. lia.
  - constructor; [lia|].
    destruct l as [|v' l]; [constructor|].
    eapply Forall_impl; [|exact IH2]. intros a Ha.
    cbv beta iota in Ha |- *. rewrite length_app. lia.
Qed.

Lemma pairs_text_length (L : nat) (sep : str) (d : list (str * pyval)) :
  length d <= length (pairs_text L sep d)
  /\ Forall (fun kv => length (enc (snd kv) L) <= length (pairs_text L sep d)) d.
Proof.
  induction d as [|[k v] d [IH1 IH2]]; [split; [apply le_n|constructor]|].
  cbn [pairs_text]. rewrite !length_app.
  assert (1 <= length (encode_basestring k)) by (simpl; lia).
  split.
  - destruct d as [|kv' d]; [cbn [List.length]; lia|].
    cbv iota. rewrite length_app.
    change (length ((k, v) :: kv' :: d)) with (S (length (kv' :: d))). lia.
  - constructor; [cbn [snd]; lia|].
    destruct d as [|kv' d]; [constructor|].
    eapply Forall_impl; [|exact IH2]. intros a Ha.
    cbv beta iota in Ha |- *. rewrite length_app. lia.
Qed.

Lemma JSONArray_items (scan : str -> scanned pyval) (n : nat) (c : codepoint) (s : str) :
  value_start c = true ->
  JSONArray scan ((10%N :: spaces n) ++ c :: s)
  = array_items scan (S (length (c :: s))) (c :: s) [].
Proof.
  intros Hc. apply value_start_facts in Hc. destruct Hc as (Hw & H93 & _).
  unfold JSONArray. rewrite skip_ws_indent_app.
  cbn [skip_ws]. rewrite Hw, H93. reflexivity.
Qed.

Lemma JSONObject_items (scan : str -> scanned pyval) (n : nat) (s : str) :
  JSONObject scan ((10%N :: spaces n) ++ QUOTE :: s)
  = object_items scan (S (length (QUOTE :: s))) s [].
Proof.
  unfold JSONObject. rewrite skip_ws_indent_app. reflexivity.
Qed.

Lemma fold_right_and_Forall {A} (Q : A -> Prop) (l : list A) :
  fold_right (fun x P => Q x /\ P) True l <-> Forall Q l.
Proof.
  induction l as [|x l IH]; simpl.
  - split; constructor.
  - rewrite IH. split; [intros [? ?]; constructor; assumption|].
    intros H; inversion H; auto.
Qed.

Lemma list_reads_back (lst : list pyval) :
  Forall (fun v => serializable v = true -> keys_distinct v = true ->
                   floats_read_back v -> reads_back v) lst ->
  serializable (PList lst) = true ->
  keys_distinct (PList lst) = true ->
  floats_read_back (PList lst) ->
  Forall reads_back lst.
Proof.
  cbn [serializable keys_distinct floats_read_back].
  rewrite !forallb_forall, fold_right_and_Forall, !Forall_forall.
  intros IH Hs Hk Hf v Hin. apply IH; auto.
Qed.

Lemma dict_reads_back (dct : list (str * pyval)) :
  Forall (fun kv => serializable (snd kv) = true -> keys_distinct (snd kv) = true ->
                    floats_read_back (snd kv) -> reads_back (snd kv)) dct ->
  serializable (PDict dct) = true ->
  keys_distinct (PDict dct) = true ->
  floats_read_back (PDict dct) ->
  distinct (map fst dct) = true /\ Forall (fun kv => reads_back (snd kv)) dct.
Proof.
  cbn [serializable keys_distinct floats_read_back].
  rewrite andb_true_iff, !forallb_forall.
  rewrite (fold_right_and_Forall (fun kv => floats_read_back (snd kv))), !Forall_forall.
  intros IH Hs [Hd Hk] Hf. split; [exact Hd|].
  intros kv Hin. apply IH; auto.
Qed.

Theorem iterencode_reads_back (v : pyval) :
  serializable v = true -> keys_distinct v = true -> floats_read_back v ->
  reads_back v.
Proof.
  induction v as [|b|z|f|s|lst IH|dct IH|name] using pyval_ind';
    intros Hs Hk Hf.
  - (* None *)
    intros lvl. split; [reflexivity|]. intros fuel rest Hfuel Hr.
    destruct fuel; [simpl in Hfuel; lia|]. reflexivity.
  - (* True, False *)
    intros lvl. split; [destruct b; reflexivity|]. intros fuel rest Hfuel Hr.
    destruct fuel; [destruct b; simpl in Hfuel; lia|]. destruct b; reflexivity.
  - (* int *)
    intros lvl. split; [reflexivity|]. intros fuel rest Hfuel Hr.
    unfold enc in *. cbn [_iterencode atom_text] in *. rewrite text_yield in *.
    destruct fuel.
    + destruct (int_repr_head z) as (c & ds & E & _). rewrite E in Hfuel.
      simpl in Hfuel. lia.
    + apply scan_once_int. exact Hr.
  - (* float *)
    intros lvl. split; [reflexivity|]. intros fuel rest Hfuel Hr.
    unfold enc in *. cbn [_iterencode atom_text] in *. rewrite text_yield in *.
    cbn [floats_read_back] in Hf.
    destruct fuel.
    + pose proof (Hf 0 [] eq_refl) as H0.
      destruct (floatstr f); [discriminate|simpl in Hfuel; lia].
    + apply Hf. exact Hr.
  - (* str *)
    intros lvl. split; [reflexivity|]. intros fuel rest Hfuel Hr.
    unfold enc in *. cbn [_iterencode atom_text] in *. rewrite text_yield in *.
    destruct fuel; [simpl in Hfuel; lia|].
    unfold encode_basestring. cbn [List.app scan_once].
    rewrite N.eqb_refl, <- List.app_assoc. cbn [List.app].
    rewrite scanstring_encode. reflexivity.
  - (* list *)
    pose proof (list_reads_back lst IH Hs Hk Hf) as Hall. clear IH Hs Hk Hf.
    intros lvl.
    destruct lst as [|v lst].
    { split; [reflexivity|]. intros fuel rest Hfuel Hr.
      destruct fuel; [simpl in Hfuel; lia|]. reflexivity. }
    set (l := v :: lst) in *.
    set (L := S lvl).
    set (nl := 10%N :: spaces (4 * L)).
    set (sep := 44%N :: nl).
    assert (Hdone : Forall (fun v => snd (_iterencode v L) = None) l).
    { eapply Forall_impl; [|exact Hall]. intros a Ha. apply Ha. }
    destruct (list_items_text L sep l (91%N :: nl) Hdone) as [G1 G2].
    assert (Henc : enc (PList l) lvl
                   = 91%N :: nl ++ items_text L sep l
                     ++ 10%N :: spaces (4 * lvl) ++ [93%N]).
    { unfold enc. unfold l at 1. cbn [_iterencode]. fold l L nl sep.
      rewrite !gseq_text, G2, !text_yield by first [exact G1|reflexivity].
      unfold l at 1. cbn [List.app]. rewrite <- !List.app_assoc. reflexivity. }
    split.
    { unfold l at 1. cbn [_iterencode]. fold l L nl sep.
      rewrite !gseq_snd by first [exact G1|reflexivity]. reflexivity. }
    intros fuel rest Hfuel Hr. rewrite Henc in Hfuel |- *.
    destruct fuel as [|f]; [simpl in Hfuel; lia|].
    assert (Hne : Forall (fun v => enc v L <> []) l).
    { eapply Forall_impl; [|exact Hall]. intros a Ha. apply reads_back_nonempty, Ha. }
    destruct (items_text_length L sep l Hne) as [Hlen1 Hlen2].
    assert (Hitems : Forall (fun v => forall rest', delimited rest' = true ->
                          scan_once f (enc v L ++ rest') = Scanned v rest') l).
    { apply Forall_forall. intros a Hin rest' Hr'.
      rewrite Forall_forall in Hall, Hlen2.
      apply (proj2 (Hall a Hin L)); [|exact Hr'].
      specialize (Hlen2 a Hin). cbn [List.length] in Hfuel.
      rewrite !length_app in Hfuel. lia. }
    set (tail := 10%N :: spaces (4 * lvl) ++ 93%N :: rest).
    assert (Hshape : (91%N :: nl ++ items_text L sep l ++ 10%N :: spaces (4 * lvl) ++ [93%N]) ++ rest
                     = 91%N :: nl ++ items_text L sep l ++ tail).
    { unfold tail. cbn [List.app]. rewrite <- !List.app_assoc. cbn [List.app].
      rewrite <- !List.app_assoc. reflexivity. }
    rewrite Hshape. cbn [scan_once]. unfold QUOTE.
    cbn [N.eqb Pos.eqb].
    assert (Hfirst : scan_once f (items_text L sep l ++ tail) = Scanned v
                       (match lst with [] => [] | _ :: _ => sep ++ items_text L sep lst end ++ tail)).
    { unfold l. cbn [items_text]. rewrite <- List.app_assoc.
      inversion Hitems as [|? ? Hv _]; subst. apply Hv.
      destruct lst; reflexivity. }
    destruct (scan_once_head _ _ _ _ Hfirst) as (c & s' & Es & Hc).
    unfold nl at 1. rewrite Es, (JSONArray_items _ _ _ _ Hc), <- Es.
    clear Hfirst Es. subst tail sep nl.
    rewrite (array_items_reads f L (4 * lvl) rest l []);
      [reflexivity|discriminate|exact Hitems|rewrite length_app; lia].
  - (* dict *)
    destruct (dict_reads_back dct IH Hs Hk Hf) as [Hdist Hall]. clear IH Hs Hk Hf.
    intros lvl.
    destruct dct as [|kv dct].
    { split; [reflexivity|]. intros fuel rest Hfuel Hr.
      destruct fuel; [simpl in Hfuel; lia|]. reflexivity. }
    set (d := kv :: dct) in *.
    set (L := S lvl).
    set (nl := 10%N :: spaces (4 * L)).
    set (sep := 44%N :: nl).
    assert (Hdone : Forall (fun kv => snd (_iterencode (snd kv) L) = None) d).
    { eapply Forall_impl; [|exact Hall]. intros a Ha. apply Ha. }
    destruct (dict_items_text L sep d true Hdone) as [G1 G2].
    assert (Henc : enc (PDict d) lvl
                   = 123%N :: nl ++ pairs_text L sep d
                     ++ 10%N :: spaces (4 * lvl) ++ [125%N]).
    { unfold enc. unfold d at 1. cbn [_iterencode]. fold d L nl sep.
      rewrite !gseq_text, G2, !text_yield by first [exact G1|reflexivity].
      unfold d at 1. cbn [List.app]. reflexivity. }
    split.
    { unfold d at 1. cbn [_iterencode]. fold d L nl sep.
      rewrite !gseq_snd by first [exact G1|reflexivity]. reflexivity. }
    intros fuel rest Hfuel Hr. rewrite Henc in Hfuel |- *.
    destruct fuel as [|f]; [simpl in Hfuel; lia|].
    destruct (pairs_text_length L sep d) as [Hlen1 Hlen2].
    assert (Hitems : Forall (fun kv => forall rest', delimited rest' = true ->
                          scan_once f (enc (snd kv) L ++ rest') = Scanned (snd kv) rest') d).
    { apply Forall_forall. intros a Hin rest' Hr'.
      rewrite Forall_forall in Hall, Hlen2.
      apply (proj2 (Hall a Hin L)); [|exact Hr'].
      specialize (Hlen2 a Hin). cbn [List.length] in Hfuel.
      rewrite !length_app in Hfuel. lia. }
    set (tail := 10%N :: spaces (4 * lvl) ++ 125%N :: rest).
    assert (Hshape : (123%N :: nl ++ pairs_text L sep d ++ 10%N :: spaces (4 * lvl) ++ [125%N]) ++ rest
                     = 123%N :: nl ++ QUOTE :: tl (pairs_text L sep d) ++ tail).
    { unfold tail. rewrite (pairs_text_quote L sep d) at 1 by discriminate.
      repeat (progress (cbn [List.app]; rewrite <- ?List.app_assoc)).
      reflexivity. }
    rewrite Hshape. cbn [scan_once].
    change (123 =? QUOTE)%N with false. cbn [N.eqb Pos.eqb].
    unfold nl at 1. rewrite JSONObject_items.
    assert (Hn : length d <= length (QUOTE :: tl (pairs_text L sep d) ++ tail)).
    { rewrite List.app_comm_cons, <- pairs_text_quote by discriminate.
      rewrite length_app. lia. }
    subst tail sep nl.
    rewrite (object_items_reads f L (4 * lvl) rest d []);
      [|discriminate|exact Hitems|apply Nat.le_le_succ_r; exact Hn].
    cbn [List.app]. rewrite (dict_distinct d Hdist). reflexivity.
  - discriminate.
Qed.


(** ** [json.loads] after [json.dumps] *)

Lemma json_dumps_reads_back (v : pyval) :
  reads_back v -> json_dumps v = Return (enc v 0).
Proof.
  intros H. destruct (H 0) as [Hd _]. unfold json_dumps, enc, text.
  destruct (_iterencode v 0) as [chunks raised]. simpl in *. subst. reflexivity.
Qed.

Lemma json_loads_reads_back (v : pyval) :
  reads_back v -> json_loads (enc v 0) = Scanned v [].
Proof.
  intros H. destruct (H 0) as [_ Hs].
  pose proof (Hs (S (length (enc v 0))) [] (Nat.le_succ_diag_r _) eq_refl) as Hscan.
  rewrite List.app_nil_r in Hscan.
  destruct (scan_once_head _ _ _ _ Hscan) as (c & s' & Es & Hc).
  pose proof (skip_ws_value _ _ _ _ Hscan) as Hskip.
  apply value_start_facts in Hc. destruct Hc as (_ & _ & _ & Hbom).
  unfold json_loads. rewrite Hskip, Hscan.
  rewrite Es, Hbom. reflexivity.
Qed.

(** [json.loads(json.dumps(v)) == v] for the values the encoder
    accepts. *)
Theorem json_loads_dumps (v : pyval) :
  serializable v = true -> keys_distinct v = true -> floats_read_back v ->
  json_dumps v = Return (enc v 0) /\ json_loads (enc v 0) = Scanned v [].
Proof.
  intros Hs Hk Hf. pose proof (iterencode_reads_back v Hs Hk Hf) as H.
  split; [apply json_dumps_reads_back|apply json_loads_reads_back]; exact H.
Qed.

(** ** What the scanner builds *)


Lemma well_formed_list (l : list pyval) :
  Forall well_formed l -> well_formed (PList l).
Proof.
  intros H. unfold well_formed. cbn [serializable keys_distinct].
  rewrite !forallb_forall. rewrite Forall_forall in H.
  split; intros x Hx; apply (H x Hx).
Qed.

Lemma dict_set_keys (d : list (str * pyval)) (key : str) (value : pyval) (x : str) :
  In x (map fst (dict_set d key value)) -> In x (map fst d) \/ x = key.
Proof.
  induction d as [|[k v] d IH]; simpl.
  - intros [H|[]]; auto.
  - destruct (str_eqb k key); simpl; intros [H|H]; auto.
    destruct (IH H); auto.
Qed.

Lemma dict_set_NoDup (d : list (str * pyval)) (key : str) (value : pyval) :
  NoDup (map fst d) -> NoDup (map fst (dict_set d key value)).
Proof.
  induction d as [|[k v] d IH]; simpl; intros H.
  - constructor; [intros []|constructor].
  - inversion H as [|? ? Hn Hd]; subst.
    destruct (str_eqb k key) eqn:E; simpl.
    + constructor; assumption.
    + constructor; [|apply IH; assumption].
      intros Hin. apply dict_set_keys in Hin. destruct Hin as [Hin|Hin].
      * contradiction.
      * subst. assert (str_eqb key key = true) by (apply str_eqb_eq; reflexivity).
        congruence.
Qed.

Lemma dict_set_Forall (P : pyval -> Prop) (d : list (str * pyval))
    (key : str) (value : pyval) :
  Forall (fun kv => P (snd kv)) d -> P value ->
  Forall (fun kv => P (snd kv)) (dict_set d key value).
Proof.
  induction d as [|[k v] d IH]; simpl; intros H Hv.
  - constructor; [exact Hv|constructor].
  - inversion H; subst. destruct (str_eqb k key); constructor; auto.
Qed.

Lemma well_formed_dict (pairs : list (str * pyval)) :
  Forall (fun kv => well_formed (snd kv)) pairs -> well_formed (PDict (dict pairs)).
Proof.
  intros H. unfold dict.
  enough (G : forall l acc,
             Forall (fun kv => well_formed (snd kv)) l ->
             NoDup (map fst acc) /\ Forall (fun kv => well_formed (snd kv)) acc ->
             let d := fold_left (fun d kv => dict_set d (fst kv) (snd kv)) l acc in
             NoDup (map fst d) /\ Forall (fun kv => well_formed (snd kv)) d).
  { destruct (G pairs [] H) as [G1 G2]; [split; constructor|].
    unfold well_formed. cbn [serializable keys_distinct].
    rewrite andb_true_iff, !forallb_forall. rewrite Forall_forall in G2.
    repeat split; try (intros x Hx; apply (G2 x Hx)).
    apply distinct_NoDup. exact G1. }
  induction l as [|[k v] l IH]; intros acc Hl [Hn Ha]; simpl; [auto|].
  inversion Hl; subst. apply IH; [assumption|]. split.
  - apply dict_set_NoDup. exact Hn.
  - apply dict_set_Forall; assumption.
Qed.

Lemma array_items_well_formed (scan : str -> scanned pyval) :
  (forall s v r, scan s = Scanned v r -> well_formed v) ->
  forall n s acc v r,
    Forall well_formed acc ->
    array_items scan n s acc = Scanned v r -> well_formed v.
Proof.
  intros Hscan. induction n as [|n IH]; intros s acc v r Hacc; simpl; [discriminate|].
  destruct (scan s) as [value s1| |] eqn:E; try discriminate.
  assert (Hacc' : Forall well_formed (acc ++ [value])).
  { apply Forall_app. split; [exact Hacc|]. constructor; [|constructor].
    eapply Hscan. exact E. }
  destruct (skip_ws s1) as [|c s2]; [discriminate|].
  destruct (c =? 93)%N.
  - intros H. inversion H; subst. apply well_formed_list. exact Hacc'.
  - destruct (c =? 44)%N; [|discriminate]. apply IH. exact Hacc'.
Qed.

Lemma object_items_well_formed (scan : str -> scanned pyval) :
  (forall s v r, scan s = Scanned v r -> well_formed v) ->
  forall n s acc v r,
    Forall (fun kv => well_formed (snd kv)) acc ->
    object_items scan n s acc = Scanned v r -> well_formed v.
Proof.
  intros Hscan. induction n as [|n IH]; intros s acc v r Hacc; simpl; [discriminate|].
  destruct (scanstring s) as [key s1| |]; try discriminate.
  destruct (skip_ws s1) as [|colon s2]; [discriminate|].
  destruct (negb (colon =? 58)%N); [discriminate|].
  destruct (scan (skip_ws s2)) as [value s3| |] eqn:E; try discriminate.
  assert (Hacc' : Forall (fun kv => well_formed (snd kv)) (acc ++ [(key, value)])).
  { apply Forall_app. split; [exact Hacc|]. constructor; [|constructor].
    eapply Hscan. exact E. }
  destruct (skip_ws s3) as [|c s4]; [discriminate|].
  destruct (c =? 125)%N.
  - intros H. inversion H; subst. apply well_formed_dict. exact Hacc'.
  - destruct (c =? 44)%N; [|discriminate].
    destruct (skip_ws s4) as [|q s5]; [discriminate|].
    destruct (q =? QUOTE)%N; [|discriminate]. apply IH. exact Hacc'.
Qed.

Lemma scan_once_well_formed (fuel : nat) :
  forall s v r, scan_once fuel s = Scanned v r -> well_formed v.
Proof.
  induction fuel as [|fuel IH]; intros s v r; [discriminate|].
  cbn [scan_once]. destruct s as [|c s1]; [discriminate|].
  destruct (c =? QUOTE)%N.
  { destruct (scanstring s1); try discriminate.
    intros H; inversion H; subst. split; reflexivity. }
  destruct (c =? 123)%N.
  { unfold JSONObject. destruct (skip_ws s1) as [|c' s2]; [discriminate|].
    destruct (c' =? 125)%N.
    - intros H; inversion H; subst. split; reflexivity.
    - destruct (c' =? QUOTE)%N; [|discriminate].
      apply (object_items_well_formed _ IH). constructor. }
  destruct (c =? 91)%N.
  { unfold JSONArray. destruct (skip_ws s1) as [|c' s2].
    - apply (array_items_well_formed _ IH). constructor.
    - destruct (c' =? 93)%N.
      + intros H; inversion H; subst. split; reflexivity.
      + apply (array_items_well_formed _ IH). constructor. }
  repeat match goal with
    | |- match ?x with _ => _ end = _ -> _ => destruct x
    | |- (if ?x then _ else _) = _ -> _ => destruct x
    | |- (let (_, _) := ?x in _) = _ -> _ => destruct x
    end;
    try discriminate; intros H; inversion H; subst; split; reflexivity.
Qed.

Theorem json_loads_well_formed (s : str) (v : pyval) (r : str) :
  json_loads s = Scanned v r -> well_formed v.
Proof.
  unfold json_loads.
  destruct (match s with c :: _ => (c =? 65279)%N | [] => false end); [discriminate|].
  destruct (scan_once (S (length s)) (skip_ws s)) as [obj rest| |] eqn:E; try discriminate.
  destruct (skip_ws rest); [|discriminate].
  intros H; inversion H; subst. eapply scan_once_well_formed. exact E.
Qed.

(** ** The run wrapper *)

Lemma string_app_assoc (a b c : string) :
  ((a ++ b) ++ c = a ++ (b ++ c))%string.
Proof. induction a as [|x a IH]; simpl; [reflexivity|rewrite IH; reflexivity]. Qed.

Lemma forallb_concat (chunks : list str) :
  forallb utf8_encodable (concat chunks) = forallb (forallb utf8_encodable) chunks.
Proof.
  induction chunks as [|c chunks IH]; simpl; [reflexivity|].
  rewrite forallb_app, IH. reflexivity.
Qed.

Lemma writable_all (chunks : list str) :
  forallb (forallb utf8_encodable) chunks = true -> writable chunks = chunks.
Proof.
  induction chunks as [|c chunks IH]; simpl; [reflexivity|].
  intros H. apply andb_true_iff in H. destruct H as [H1 H2].
  rewrite H1, IH by exact H2. reflexivity.
Qed.


Lemma save_memory_complete (w : world) (s : str) :
  json_dumps (oi_messages w) = Return s ->
  forallb utf8_encodable s = true ->
  save_memory w = (Return tt, saved w [saved_notice])
  /\ fs_memory (saved w [saved_notice]) = TextFile s.
Proof.
  unfold json_dumps. intros Hd He. rewrite save_memory_spec. unfold saved.
  destruct (_iterencode (oi_messages w) 0) as [chunks raised]. simpl.
  destruct raised; [discriminate|]. inversion Hd; subst.
  rewrite forallb_concat in He. rewrite He, (writable_all _ He). auto.
Qed.

Lemma save_memory_saved (w : world) :
  exists tail, snd (save_memory w) = saved w tail /\ (tail = [] \/ tail = [saved_notice]).
Proof.
  rewrite save_memory_spec.
  destruct (forallb _ _);
    [destruct (snd (_iterencode (oi_messages w) 0))|]; cbn [snd];
    eexists; (split; [reflexivity|auto]).
Qed.

Lemma crash_handler_spec (e : exn) (w : world) :
  crash_handler e w =
    (match stdin w with [] => Raise EOFError | _ :: _ => Return tt end,
     mkWorld (oi_messages w) (fs_memory w)
             (Some (log_text (fs_log w) ++ crash_block e)%string)
             (tl (stdin w)) (trace w ++ crash_events e)).
Proof.
  destruct w as [messages memory log lines events].
  unfold crash_handler, crash_block, crash_events.
  cbv beta iota zeta delta
    [bind print print_exc open_a_LOG_PATH write_LOG_PATH input emit set_log ret
     oi_messages fs_memory fs_log stdin trace log_text tl].
  rewrite <- !List.app_assoc. cbn [List.app].
  rewrite !string_app_assoc.
  destruct lines; reflexivity.
Qed.


Lemma start_with_logging_spec (w w1 wc : world) (r : result unit) :
  load_memory w = (Return tt, w1) ->
  oi_chat (chat_entry w1) = (r, wc) ->
  start_with_logging w =
    let r2 := match r with
              | Return a => Return a
              | Raise e => if is_Exception e then fst (crash_handler e wc) else Raise e
              end in
    match save_memory (after_try r wc) with
    | (Return _, w') => (r2, w')
    | (Raise e', w') => (Raise e', w')
    end.
Proof.
  intros Hl Hc.
  unfold start_with_logging, bind. rewrite Hl.
  unfold try_finally, chat_guarded, try_except_Exception, bind, print.
  fold (chat_entry w1). rewrite Hc. unfold after_try.
  destruct r as [[]|e]; [reflexivity|].
  destruct (is_Exception e); [|reflexivity].
  destruct (crash_handler e wc); reflexivity.
Qed.

Lemma start_with_logging_world (w w1 wc : world) (r : result unit) :
  load_memory w = (Return tt, w1) ->
  oi_chat (chat_entry w1) = (r, wc) ->
  snd (start_with_logging w) = snd (save_memory (after_try r wc)).
Proof.
  intros Hl Hc. rewrite (start_with_logging_spec w w1 wc r Hl Hc). cbv zeta.
  destruct (save_memory (after_try r wc)) as [[[]|e'] w']; reflexivity.
Qed.


Lemma start_with_logging_trace (w w1 wc : world) (r : result unit) :
  load_memory w = (Return tt, w1) ->
  oi_chat (chat_entry w1) = (r, wc) ->
  exists evs,
    trace (snd (start_with_logging w))
    = trace (after_try r wc) ++ Open DB_PATH "w" :: evs.
Proof.
  intros Hl Hc. rewrite (start_with_logging_world w w1 wc r Hl Hc).
  destruct (save_memory_saved (after_try r wc)) as (tail & -> & _).
  unfold saved. cbn [trace]. eauto.
Qed.

(** C2: however the chat loop ends (it returns, it raises an exception
    the wrapper handles, or it raises one it lets through), the wrapper
    runs [save_memory] on the state the [try] statement leaves, so the
    memory file is opened for writing after everything else. *)
Theorem save_attempted_on_every_exit (w w1 wc : world) (r : result unit) :
  load_memory w = (Return tt, w1) ->
  oi_chat (chat_entry w1) = (r, wc) ->
  snd (start_with_logging w) = snd (save_memory (after_try r wc))
  /\ exists evs,
       trace (snd (start_with_logging w))
       = trace (after_try r wc) ++ Open DB_PATH "w" :: evs.
Proof.
  intros Hl Hc. split.
  - apply (start_with_logging_world w w1 wc r Hl Hc).
  - apply (start_with_logging_trace w w1 wc r Hl Hc).
Qed.



Lemma load_memory_list (w : world) (t : str) (items : list pyval) (r : str) :
  fs_memory w = TextFile t ->
  json_loads t = Scanned (PList items) r ->
  load_memory w = (Return tt, loaded w (PList items) (length items)).
Proof.
  intros Hm Hj.
  destruct w as [messages memory log lines events]. cbn [fs_memory] in Hm. subst.
  unfold load_memory, loaded.
  cbv beta iota zeta delta
    [bind exists_DB_PATH json_load read_DB_PATH ret raise print emit set_messages
     oi_messages fs_memory fs_log stdin trace].
  rewrite Hj.
  cbv beta iota zeta delta
    [bind ret raise print emit set_messages len
     oi_messages fs_memory fs_log stdin trace].
  rewrite <- List.app_assoc. reflexivity.
Qed.

(** C4: a failure of the load step is not handled: the wrapper ends
    with that exception in the state the load left, in which only the
    memory file has been opened (for reading); nothing was printed or
    prompted, no file was changed, and the save step did not run. *)
Theorem load_failure_is_fatal (w w1 : world) (e : exn) :
  load_memory w = (Raise e, w1) ->
  start_with_logging w = (Raise e, w1)
  /\ trace w1 = trace w ++ [Open DB_PATH "r"]
  /\ fs_log w1 = fs_log w
  /\ fs_memory w1 = fs_memory w
  /\ stdin w1 = stdin w.
Proof.
  intros Hl. split.
  { unfold start_with_logging, bind. rewrite Hl. reflexivity. }
  destruct w as [messages memory log lines events].
  revert Hl. unfold load_memory.
  cbv beta iota zeta delta
    [bind exists_DB_PATH json_load read_DB_PATH ret raise emit
     oi_messages fs_memory fs_log stdin trace].
  destruct memory as [|t|].
  - discriminate.
  - destruct (json_loads t) as [obj r| |];
      cbv beta iota zeta delta
        [bind ret raise print emit set_messages len
         oi_messages fs_memory fs_log stdin trace].
    + destruct obj; intros H; inversion H; subst; repeat split; reflexivity.
    + intros H; inversion H; subst; repeat split; reflexivity.
    + intros H; inversion H; subst; repeat split; reflexivity.
  - intros H; inversion H; subst; repeat split; reflexivity.
Qed.

(** C5: with no memory file, [load_memory] returns and changes nothing:
    no assignment to the message list, no file opened. *)
Theorem load_without_file (w : world) :
  fs_memory w = Absent -> load_memory w = (Return tt, w).
Proof.
  intros Hm. unfold load_memory, bind, exists_DB_PATH. rewrite Hm. reflexivity.
Qed.


(** C7, amended: load a file that holds a JSON array X, save, and load
    again in a new process.  Provided the serialization of X can be
    encoded in UTF-8 (it holds no lone surrogate) and the floats of X
    are written as text that reads back to them, every step returns,
    the file holds the serialization of X and the message list is X
    again. *)
Theorem reload_round_trip (w : world) (t : str) (items : list pyval) (s : str) :
  fs_memory w = TextFile t ->
  json_loads t = Scanned (PList items) [] ->
  floats_read_back (PList items) ->
  json_dumps (PList items) = Return s ->
  forallb utf8_encodable s = true ->
  let w1 := snd (load_memory w) in
  let w2 := snd (save_memory w1) in
  let w3 := snd (load_memory (restart w2)) in
  fst (load_memory w) = Return tt
  /\ fst (save_memory w1) = Return tt
  /\ fst (load_memory (restart w2)) = Return tt
  /\ fs_memory w2 = TextFile s
  /\ oi_messages w3 = PList items.
Proof.
  intros Hm Hj Hf Hdumps He. cbv zeta.
  destruct (json_loads_well_formed _ _ _ Hj) as [Hs Hk].
  destruct (json_loads_dumps (PList items) Hs Hk Hf) as [Hd Hr].
  rewrite Hd in Hdumps. inversion Hdumps; subst s. clear Hdumps.
  rewrite (load_memory_list w t items [] Hm Hj). cbn [fst snd].
  destruct (save_memory_complete (loaded w (PList items) (length items))
              (enc (PList items) 0) Hd He) as [Hsave Hfile].
  rewrite Hsave. cbn [fst snd].
  assert (Hm2 : fs_memory (restart (saved (loaded w (PList items) (length items))
                                          [saved_notice]))
                = TextFile (enc (PList items) 0)) by exact Hfile.
  rewrite (load_memory_list _ _ items [] Hm2 Hr). cbn [fst snd].
  repeat split; try reflexivity. exact Hfile.
Qed.

(** C8, amended: a save with list A followed by a save with list B
    leaves the serialization of B in the memory file, whatever A was,
    provided B has a serialization that UTF-8 can encode. *)
Theorem save_overwrites (w : world) (A B : pyval) (s : str) :
  json_dumps B = Return s ->
  forallb utf8_encodable s = true ->
  fs_memory (snd (save_memory (set_messages B (snd (save_memory (set_messages A w))))))
  = TextFile s.
Proof.
  intros Hd He.
  destruct (save_memory_complete
              (set_messages B (snd (save_memory (set_messages A w)))) s Hd He)
    as [-> H].
  exact H.
Qed.


(** C10: an exception that is not of class [Exception] skips the crash
    branch: the wrapper goes from the state at the raise straight to the
    save step, so that nothing is printed, logged or prompted in
    between, and the exception propagates once the save has returned. *)
Theorem base_exception_skips_crash_branch (w w1 wc : world) (e : exn) :
  load_memory w = (Return tt, w1) ->
  oi_chat (chat_entry w1) = (Raise e, wc) ->
  is_Exception e = false ->
  snd (start_with_logging w) = snd (save_memory wc)
  /\ fs_log (snd (start_with_logging w)) = fs_log wc
  /\ (exists tail,
        (tail = [] \/ tail = [saved_notice])
        /\ trace (snd (start_with_logging w))
           = trace wc ++ Open DB_PATH "w"
               :: map (WriteStr DB_PATH)
                    (writable (fst (_iterencode (oi_messages wc) 0))) ++ tail)
  /\ (fst (save_memory wc) = Return tt -> fst (start_with_logging w) = Raise e).
Proof.
  intros Hl Hc He.
  pose proof (start_with_logging_world w w1 wc _ Hl Hc) as Hw.
  pose proof (start_with_logging_spec w w1 wc _ Hl Hc) as Hs.
  unfold after_try in *. rewrite He in *. cbv zeta in Hs.
  destruct (save_memory_saved wc) as (tail & Ht & Htail).
  rewrite Hw, Ht. repeat split.
  - exists tail. split; [exact Htail|reflexivity].
  - intros Hr. rewrite Hs.
    destruct (save_memory wc) as [[[]|e'] w']; [reflexivity|discriminate].
Qed.


(** ** The scanner's counters never run out *)

Lemma skip_ws_length (s : str) : length (skip_ws s) <= length s.
Proof.
  induction s as [|c s IH]; simpl; [lia|].
  destruct (is_whitespace c); simpl; lia.
Qed.

Lemma append_char_scanned (c : codepoint) (x : scanned str) (k r : str) :
  append_char c x = Scanned k r -> exists k', x = Scanned k' r.
Proof. destruct x; simpl; intros H; inversion H; eauto. Qed.

Lemma scanstring_shorter_aux (n : nat) :
  forall s, length s <= n ->
  forall k r, scanstring s = Scanned k r -> length r < length s.
Proof.
  induction n as [|n IH]; intros s Hn k r.
  - destruct s; [discriminate|simpl in Hn; lia].
  - destruct s as [|c s1]; [discriminate|]. cbn [scanstring].
    repeat match goal with
      | |- Scanned _ _ = Scanned _ _ -> _ =>
          let H := fresh in intros H; inversion H; subst; simpl; lia
      | |- Invalid _ = _ -> _ => discriminate
      | |- append_char _ _ = _ -> _ =>
          let H := fresh in
          intros H; apply append_char_scanned in H; destruct H as [? H];
          apply IH in H; simpl in *; lia
      | |- (if ?b then _ else _) = _ -> _ => destruct b
      | |- match ?x with _ => _ end = _ -> _ => destruct x
      end.
Qed.

Lemma scanstring_shorter (s k r : str) :
  scanstring s = Scanned k r -> length r < length s.
Proof. apply (scanstring_shorter_aux (length s)). apply le_n. Qed.

Lemma scanstring_never_out_aux (n : nat) :
  forall s, length s <= n -> scanstring s <> OutOfFuel.
Proof.
  induction n as [|n IH]; intros s Hn.
  - destruct s; [discriminate|simpl in Hn; lia].
  - destruct s as [|c s1]; [discriminate|]. cbn [scanstring].
    repeat match goal with
      | |- Scanned _ _ <> _ => discriminate
      | |- Invalid _ <> _ => discriminate
      | |- append_char _ ?x <> _ =>
          let H := fresh in
          assert (H : x <> OutOfFuel) by (apply IH; simpl in *; lia);
          destruct x; [discriminate|discriminate|congruence]
      | |- (if ?b then _ else _) <> _ => destruct b
      | |- match ?x with _ => _ end <> _ => destruct x
      end.
Qed.

Lemma scanstring_never_out (s : str) : scanstring s <> OutOfFuel.
Proof. apply (scanstring_never_out_aux (length s)). apply le_n. Qed.

Lemma span_digits_length (s ds r : str) :
  span_digits s = (ds, r) -> length r <= length s.
Proof.
  revert ds r. induction s as [|c s IH]; simpl; intros ds r H.
  - inversion H; subst. simpl. lia.
  - destruct (is_digit c).
    + destruct (span_digits s) as [ds' r'] eqn:E. inversion H; subst.
      specialize (IH _ _ eq_refl). lia.
    + inversion H; subst. simpl. lia.
Qed.

Lemma match_number_shorter (s integer frac exp r : str) :
  match_number s = Some (integer, frac, exp, r) -> length r < length s.
Proof.
  unfold match_number.
  destruct (match_integer s) as [[i s1]|] eqn:Ei; [|discriminate].
  destruct (match_frac s1) as [f s2] eqn:Ef.
  destruct (match_exp s2) as [x s3] eqn:Ex.
  intros H; inversion H; subst.
  assert (H1 : length s1 < length s).
  { revert Ei. unfold match_integer.
    destruct s as [|c s]; [discriminate|].
    destruct (c =? 45)%N.
    - destruct s as [|d s']; [discriminate|].
      destruct (d =? 48)%N; [intros E; inversion E; subst; simpl; lia|].
      destruct (is_digit d); [|discriminate].
      destruct (span_digits s') as [ds r'] eqn:Es.
      intros E; inversion E; subst. apply span_digits_length in Es. simpl. lia.
    - destruct (c =? 48)%N; [intros E; inversion E; subst; simpl; lia|].
      destruct (is_digit c); [|discriminate].
      destruct (span_digits s) as [ds r'] eqn:Es.
      intros E; inversion E; subst. apply span_digits_length in Es. simpl. lia. }
  assert (H2 : length s2 <= length s1).
  { revert Ef. unfold match_frac.
    destruct s1 as [|c [|d s']]; try (intros E; inversion E; subst; lia).
    destruct ((c =? 46)%N && is_digit d); [|intros E; inversion E; subst; lia].
    destruct (span_digits (tl (c :: d :: s'))) as [ds r'] eqn:Es.
    intros E; inversion E; subst. apply span_digits_length in Es. simpl in *. lia. }
  assert (H3 : length r <= length s2).
  { revert Ex. unfold match_exp.
    destruct s2 as [|e s']; [intros E; inversion E; subst; lia|].
    destruct ((e =? 101) || (e =? 69))%N; [|intros E; inversion E; subst; lia].
    destruct (match s' with
              | [] => ([], s')
              | c :: s'0 => if ((c =? 45) || (c =? 43))%N then ([c], s'0) else ([], s')
              end) as [sign s4] eqn:Esign.
    assert (length s4 <= length s').
    { destruct s' as [|c s'']; [inversion Esign; subst; lia|].
      destruct ((c =? 45) || (c =? 43))%N; inversion Esign; subst; simpl; lia. }
    destruct s4 as [|d s5]; [intros E; inversion E; subst; simpl; lia|].
    destruct (is_digit d); [|intros E; inversion E; subst; simpl; lia].
    destruct (span_digits (d :: s5)) as [ds r'] eqn:Es.
    intros E; inversion E; subst. apply span_digits_length in Es. simpl in *. lia. }
  lia.
Qed.

Lemma after_word_length (word s r : str) :
  after_word word s = Some r -> length s = length word + length r.
Proof.
  revert s. induction word as [|w word IH]; intros s; simpl.
  - intros H; inversion H; reflexivity.
  - destruct s as [|c s]; [discriminate|].
    destruct (w =? c)%N; [|discriminate].
    intros H. apply IH in H. simpl. lia.
Qed.


Lemma array_items_total (scan : str -> scanned pyval) (n : nat) :
  forall s acc,
    steady scan (length s) -> length s < n ->
    array_items scan n s acc <> OutOfFuel
    /\ forall v r, array_items scan n s acc = Scanned v r -> length r < length s.
Proof.
  induction n as [|n IH]; intros s acc Hscan Hn; [lia|].
  cbn [array_items].
  destruct (Hscan s (le_n _)) as [Hne Hsh].
  destruct (scan s) as [value s1| |] eqn:E; [|split; discriminate|congruence].
  specialize (Hsh _ _ eq_refl).
  pose proof (skip_ws_length s1) as Hw1.
  destruct (skip_ws s1) as [|c s2] eqn:E1; [split; discriminate|].
  simpl in Hw1.
  destruct (c =? 93)%N.
  { split; [discriminate|]. intros v r H; inversion H; subst. lia. }
  destruct (c =? 44)%N; [|split; discriminate].
  pose proof (skip_ws_length s2) as Hw2.
  destruct (IH (skip_ws s2) (acc ++ [value])) as [T1 T2].
  - intros s' Hs'. apply Hscan. lia.
  - lia.
  - split; [exact T1|]. intros v r H. specialize (T2 _ _ H). lia.
Qed.

Lemma object_items_total (scan : str -> scanned pyval) (n : nat) :
  forall s acc,
    steady scan (length s) -> length s < n ->
    object_items scan n s acc <> OutOfFuel
    /\ forall v r, object_items scan n s acc = Scanned v r -> length r < length s.
Proof.
  induction n as [|n IH]; intros s acc Hscan Hn; [lia|].
  cbn [object_items].
  destruct (scanstring s) as [key s1| |] eqn:Ek; [|split; discriminate|].
  2:{ exfalso. exact (scanstring_never_out s Ek). }
  apply scanstring_shorter in Ek.
  pose proof (skip_ws_length s1) as Hw1.
  destruct (skip_ws s1) as [|colon s2] eqn:E1; [split; discriminate|].
  simpl in Hw1.
  destruct (negb (colon =? 58)%N); [split; discriminate|].
  pose proof (skip_ws_length s2) as Hw2.
  destruct (Hscan (skip_ws s2)) as [Hne Hsh]; [lia|].
  destruct (scan (skip_ws s2)) as [value s3| |] eqn:E; [|split; discriminate|congruence].
  specialize (Hsh _ _ eq_refl).
  pose proof (skip_ws_length s3) as Hw3.
  destruct (skip_ws s3) as [|c s4] eqn:E3; [split; discriminate|].
  simpl in Hw3.
  destruct (c =? 125)%N.
  { split; [discriminate|]. intros v r H; inversion H; subst. lia. }
  destruct (c =? 44)%N; [|split; discriminate].
  pose proof (skip_ws_length s4) as Hw4.
  destruct (skip_ws s4) as [|q s5] eqn:E4; [split; discriminate|].
  simpl in Hw4.
  destruct (q =? QUOTE)%N; [|split; discriminate].
  destruct (IH s5 (acc ++ [(key, value)])) as [T1 T2].
  - intros s' Hs'. apply Hscan. lia.
  - lia.
  - split; [exact T1|]. intros v r H. specialize (T2 _ _ H). lia.
Qed.

Lemma scan_once_total (fuel : nat) : steady (scan_once (S fuel)) fuel.
Proof.
  induction fuel as [|fuel IH]; intros s Hs.
  { destruct s; [|simpl in Hs; lia]. split; [discriminate|discriminate]. }
  assert (IH' : forall bound, bound <= fuel -> steady (scan_once (S fuel)) bound).
  { intros bound Hb s' Hs'. apply IH. lia. }
  destruct s as [|c s1]; [split; discriminate|].
  simpl in Hs.
  change (scan_once (S (S fuel)) (c :: s1))
    with (if (c =? QUOTE)%N then
            match scanstring s1 with
            | Scanned chunks rest => Scanned (PStr chunks) rest
            | Invalid msg => Invalid msg
            | OutOfFuel => OutOfFuel
            end
          else if (c =? 123)%N then JSONObject (scan_once (S fuel)) s1
          else if (c =? 91)%N then JSONArray (scan_once (S fuel)) s1
          else
            match after_word (lit "null") (c :: s1) with
            | Some rest => Scanned PNone rest
            | None =>
            match after_word (lit "true") (c :: s1) with
            | Some rest => Scanned (PBool true) rest
            | None =>
            match after_word (lit "false") (c :: s1) with
            | Some rest => Scanned (PBool false) rest
            | None =>
            match match_number (c :: s1) with
            | Some (integer, frac, exp, rest) =>
                if is_nil frac && is_nil exp
                then Scanned (PInt (parse_int integer)) rest
                else Scanned (PFloat (float_of_literal (integer ++ frac ++ exp))) rest
            | None =>
            match after_word (lit "NaN") (c :: s1) with
            | Some rest => Scanned (PFloat (float_of_literal (lit "NaN"))) rest
            | None =>
            match after_word (lit "Infinity") (c :: s1) with
            | Some rest => Scanned (PFloat (float_of_literal (lit "Infinity"))) rest
            | None =>
            match after_word (lit "-Infinity") (c :: s1) with
            | Some rest => Scanned (PFloat (float_of_literal (lit "-Infinity"))) rest
            | None => Invalid "Expecting value"
            end end end end end end end).
  destruct (c =? QUOTE)%N.
  { pose proof (scanstring_never_out s1) as Hn.
    destruct (scanstring s1) as [k r| |] eqn:E; [|split; discriminate|congruence].
    apply scanstring_shorter in E.
    split; [discriminate|]. intros v r' H; inversion H; subst. simpl. lia. }
  destruct (c =? 123)%N.
  { unfold JSONObject. pose proof (skip_ws_length s1) as Hw.
    destruct (skip_ws s1) as [|c' s2] eqn:E; [split; discriminate|].
    simpl in Hw.
    destruct (c' =? 125)%N.
    { split; [discriminate|]. intros v r H; inversion H; subst. simpl. lia. }
    destruct (c' =? QUOTE)%N; [|split; discriminate].
    destruct (object_items_total (scan_once (S fuel)) (S (length (c' :: s2))) s2 [])
      as [T1 T2]; [apply IH'; lia|simpl; lia|].
    split; [exact T1|]. intros v r H. specialize (T2 _ _ H). simpl. lia. }
  destruct (c =? 91)%N.
  { unfold JSONArray. pose proof (skip_ws_length s1) as Hw.
    assert (G : array_items (scan_once (S fuel)) (S (length (skip_ws s1))) (skip_ws s1) []
                <> OutOfFuel
                /\ forall v r,
                     array_items (scan_once (S fuel)) (S (length (skip_ws s1)))
                       (skip_ws s1) [] = Scanned v r ->
                     length r < length (c :: s1)).
    { destruct (array_items_total (scan_once (S fuel)) (S (length (skip_ws s1)))
                  (skip_ws s1) []) as [T1 T2]; [apply IH'; lia|lia|].
      split; [exact T1|]. intros v r H. specialize (T2 _ _ H). simpl. lia. }
    destruct (skip_ws s1) as [|c' s2] eqn:E; [exact G|].
    destruct (c' =? 93)%N; [|exact G].
    split; [discriminate|]. intros v r H; inversion H; subst. simpl in *. lia. }
  repeat match goal with
    | |- context [after_word ?w ?s] =>
        let E := fresh "E" in
        destruct (after_word w s) eqn:E;
        [apply after_word_length in E; simpl in E;
         split; [discriminate|];
         let H := fresh in intros ? ? H; inversion H; subst; simpl; lia|]
    | |- context [match_number ?s] =>
        let E := fresh "E" in
        destruct (match_number s) as [[[[? ?] ?] ?]|] eqn:E;
        [apply match_number_shorter in E;
         destruct (is_nil _ && is_nil _);
         (split; [discriminate|]);
         let H := fresh in intros ? ? H; inversion H; subst; exact E|]
    end.
  split; discriminate.
Qed.

(** [json.loads] never runs out of its counters: every text is either
    scanned or rejected with a [JSONDecodeError]. *)
Theorem json_loads_total (s : str) : json_loads s <> OutOfFuel.
Proof.
  unfold json_loads.
  destruct (match s with c :: _ => (c =? 65279)%N | [] => false end); [discriminate|].
  destruct (scan_once_total (length s) (skip_ws s) (skip_ws_length s)) as [H _].
  destruct (scan_once (S (length s)) (skip_ws s)); [|discriminate|congruence].
  destruct (skip_ws rest); discriminate.
Qed.


(** ** The steps of the script, case by case *)

Lemma save_memory_frame (w : world) :
  oi_messages (snd (save_memory w)) = oi_messages w
  /\ fs_log (snd (save_memory w)) = fs_log w
  /\ stdin (snd (save_memory w)) = stdin w.
Proof.
  destruct (save_memory_saved w) as (tail & -> & _). repeat split.
Qed.

Lemma save_memory_of_messages (w w' : world) :
  oi_messages w = oi_messages w' ->
  fst (save_memory w) = fst (save_memory w')
  /\ fs_memory (snd (save_memory w)) = fs_memory (snd (save_memory w')).
Proof.
  intros H. rewrite !save_memory_spec, <- H. unfold saved. rewrite <- H.
  destruct (forallb _ _); [destruct (snd _)|]; split; reflexivity.
Qed.

Lemma after_try_messages (r : result unit) (wc : world) :
  oi_messages (after_try r wc) = oi_messages wc.
Proof.
  destruct r as [[]|e]; [reflexivity|]. unfold after_try.
  destruct (is_Exception e); [|reflexivity].
  rewrite crash_handler_spec. reflexivity.
Qed.

Lemma load_memory_spec (w : world) :
  load_memory w =
    match fs_memory w with
    | Absent => (Return tt, w)
    | Unreadable => (Raise OSError, emit (Open DB_PATH "r") w)
    | TextFile t =>
        match json_loads t with
        | Scanned obj _ =>
            match obj with
            | PList lst => (Return tt, loaded w obj (length lst))
            | PDict dct => (Return tt, loaded w obj (length dct))
            | PStr s => (Return tt, loaded w obj (length s))
            | _ => (Raise (TypeError "object has no len()"),
                    set_messages obj (emit (Open DB_PATH "r") w))
            end
        | Invalid msg => (Raise (JSONDecodeError msg), emit (Open DB_PATH "r") w)
        | OutOfFuel =>
            (Raise (OtherException "RecursionError"), emit (Open DB_PATH "r") w)
        end
    end.
Proof.
  destruct w as [messages memory log lines events].
  unfold load_memory, loaded.
  cbv beta iota zeta delta
    [bind exists_DB_PATH json_load read_DB_PATH ret raise emit
     oi_messages fs_memory fs_log stdin trace].
  destruct memory as [|t|]; [reflexivity| |reflexivity].
  destruct (json_loads t) as [obj r| |]; [|reflexivity|reflexivity].
  destruct obj;
    cbv beta iota zeta delta
      [bind ret raise print emit set_messages len
       oi_messages fs_memory fs_log stdin trace];
    rewrite <- ?List.app_assoc; reflexivity.
Qed.

(** ** The run wrapper: the outcomes of a run *)

(** X1: when the chat loop returns, the wrapper does nothing but save:
    its result and final state are those of [save_memory] run where the
    chat loop stopped; the crash log, the console input and the message
    list are as the chat loop left them. *)
Theorem clean_run_only_saves (w w1 wc : world) :
  load_memory w = (Return tt, w1) ->
  oi_chat (chat_entry w1) = (Return tt, wc) ->
  start_with_logging w = save_memory wc
  /\ fs_log (snd (start_with_logging w)) = fs_log wc
  /\ stdin (snd (start_with_logging w)) = stdin wc
  /\ oi_messages (snd (start_with_logging w)) = oi_messages wc.
Proof.
  intros Hl Hc.
  pose proof (start_with_logging_spec w w1 wc _ Hl Hc) as Hs.
  cbv zeta in Hs. cbn [after_try] in Hs.
  assert (E : start_with_logging w = save_memory wc).
  { rewrite Hs. destruct (save_memory wc) as [[[]|e'] w']; reflexivity. }
  rewrite E. destruct (save_memory_frame wc) as (Hm & Hg & Hi).
  auto.
Qed.



(** X4: an exception of the final save is the outcome of the wrapper,
    whatever came before: it replaces a normal return of the chat loop,
    a crash that was handled, and an exception that was on its way out
    (a keyboard interrupt, say). *)
Theorem save_failure_is_the_outcome
    (w w1 wc : world) (r : result unit) (e' : exn) :
  load_memory w = (Return tt, w1) ->
  oi_chat (chat_entry w1) = (r, wc) ->
  fst (save_memory wc) = Raise e' ->
  fst (start_with_logging w) = Raise e'.
Proof.
  intros Hl Hc Hsave.
  pose proof (start_with_logging_spec w w1 wc _ Hl Hc) as Hs. cbv zeta in Hs.
  destruct (save_memory_of_messages (after_try r wc) wc
              (after_try_messages _ _)) as [Hres _].
  rewrite Hsave in Hres. rewrite Hs.
  destruct (save_memory (after_try r wc)) as [[[]|e''] w'];
    cbn [fst] in Hres |- *; congruence.
Qed.

(** ** [load_memory] on files that hold no array *)

Lemma skip_ws_blank (t : str) :
  skip_ws t = [] <-> forallb is_whitespace t = true.
Proof.
  induction t as [|c t IH]; simpl; [split; reflexivity|].
  destruct (is_whitespace c); simpl; [exact IH|].
  split; discriminate.
Qed.

Lemma whitespace_not_bom (c : codepoint) :
  is_whitespace c = true -> (c =? 65279)%N = false.
Proof.
  unfold is_whitespace. rewrite !orb_true_iff, !N.eqb_eq.
  intros [[[-> | ->] | ->] | ->]; reflexivity.
Qed.

Lemma json_loads_blank (t : str) :
  forallb is_whitespace t = true -> json_loads t = Invalid "Expecting value".
Proof.
  intros H. unfold json_loads.
  rewrite (proj2 (skip_ws_blank t) H).
  destruct t as [|c t]; [reflexivity|].
  simpl in H. apply andb_true_iff in H. destruct H as [Hc _].
  rewrite (whitespace_not_bom c Hc). reflexivity.
Qed.

(** X5: [load_memory] does not check that the file holds an array.  A
    JSON object becomes the message list and the notice counts its
    keys; a JSON string becomes the message list and the notice counts
    its characters. *)
Theorem load_does_not_require_an_array (w : world) (t : str) :
  fs_memory w = TextFile t ->
  (forall dct, json_loads t = Scanned (PDict dct) [] ->
     load_memory w = (Return tt, loaded w (PDict dct) (length dct)))
  /\ (forall s, json_loads t = Scanned (PStr s) [] ->
        load_memory w = (Return tt, loaded w (PStr s) (length s))).
Proof.
  intros Hm.
  split; intros x Hj; rewrite load_memory_spec, Hm, Hj; reflexivity.
Qed.

(** X6: when the file holds a JSON value without a length (a number,
    [true], [false] or [null]), [load_memory] raises [TypeError], but
    only after it has made that value the message list: the assignment
    comes before the count.  Nothing is printed. *)
Theorem load_scalar_fails_after_assignment (w : world) (t : str) (obj : pyval) :
  fs_memory w = TextFile t ->
  json_loads t = Scanned obj [] ->
  sized obj = false ->
  exists msg,
    fst (load_memory w) = Raise (TypeError msg)
    /\ oi_messages (snd (load_memory w)) = obj
    /\ trace (snd (load_memory w)) = trace w ++ [Open DB_PATH "r"].
Proof.
  intros Hm Hj Hs. rewrite load_memory_spec, Hm, Hj.
  destruct obj; try discriminate; eexists; repeat split.
Qed.

(** X7: a memory file that is empty or holds only white space makes
    [load_memory] raise [JSONDecodeError]; the message list is left as
    it was and nothing is printed. *)
Theorem load_blank_file (w : world) (t : str) :
  fs_memory w = TextFile t ->
  forallb is_whitespace t = true ->
  load_memory w
  = (Raise (JSONDecodeError "Expecting value"), emit (Open DB_PATH "r") w).
Proof.
  intros Hm Hb. rewrite load_memory_spec, Hm, (json_loads_blank t Hb).
  reflexivity.
Qed.

(** X8: [load_memory] reads only.  Whatever the memory file is (missing,
    unreadable, malformed or valid), the file, the crash log and the
    console input are left as they were, and the message list is either
    left as it was or replaced by the value read from the file. *)
Theorem load_memory_reads_only (w : world) :
  fs_memory (snd (load_memory w)) = fs_memory w
  /\ fs_log (snd (load_memory w)) = fs_log w
  /\ stdin (snd (load_memory w)) = stdin w
  /\ (oi_messages (snd (load_memory w)) = oi_messages w
      \/ exists t,
           fs_memory w = TextFile t
           /\ json_loads t = Scanned (oi_messages (snd (load_memory w))) []).
Proof.
  rewrite load_memory_spec.
  destruct w as [messages memory log lines events]. cbn [fs_memory].
  destruct memory as [|t|]; try (repeat split; left; reflexivity).
  destruct (json_loads t) as [obj r| |] eqn:Hj;
    try (repeat split; left; reflexivity).
  assert (Hr : r = []).
  { revert Hj. unfold json_loads.
    destruct (match t with c :: _ => (c =? 65279)%N | [] => false end);
      [discriminate|].
    destruct (scan_once (S (length t)) (skip_ws t)); try discriminate.
    destruct (skip_ws rest); [|discriminate]. intros H; inversion H; reflexivity. }
  subst r.
  destruct obj; repeat split; right; exists t; (split; [reflexivity|exact Hj]).
Qed.

(** ** When the encoder raises *)

Lemma gseq_raised (g1 g2 : gen) :
  snd (gseq g1 g2) = match snd g1 with Some e => Some e | None => snd g2 end.
Proof. destruct g1 as [chunks [e|]]; reflexivity. Qed.

Lemma first_raise_app (a b : list string) :
  first_raise (a ++ b)
  = match first_raise a with Some e => Some e | None => first_raise b end.
Proof. destruct a; reflexivity. Qed.

Lemma atom_unsupported (v : pyval) (t : str) :
  atom_text v = Some t -> unsupported v = [].
Proof. destruct v; simpl; try discriminate; reflexivity. Qed.

Lemma list_items_raised (L : nat) (sep : str) (l : list pyval) :
  forall buf,
    Forall (fun v => forall lvl,
              snd (_iterencode v lvl) = first_raise (unsupported v)) l ->
    snd (_iterencode_list_items (fun value => _iterencode value L) sep l buf)
    = first_raise (flat_map unsupported l).
Proof.
  induction l as [|v l IH]; intros buf Hl; [reflexivity|].
  inversion Hl as [|? ? Hv Hl']; subst.
  cbn [_iterencode_list_items flat_map].
  rewrite gseq_raised, first_raise_app, (IH sep Hl'), <- (Hv L).
  destruct (atom_text v) as [t|] eqn:Ha.
  - rewrite (iterencode_atom v t L Ha). reflexivity.
  - rewrite gseq_raised. reflexivity.
Qed.

Lemma dict_items_raised (L : nat) (sep : str) (d : list (str * pyval)) :
  forall first,
    Forall (fun kv => forall lvl,
              snd (_iterencode (snd kv) lvl) = first_raise (unsupported (snd kv))) d ->
    snd (_iterencode_dict_items (fun value => _iterencode value L) sep d first)
    = first_raise (flat_map (fun kv => unsupported (snd kv)) d).
Proof.
  induction d as [|[k v] d IH]; intros first Hd; [reflexivity|].
  inversion Hd as [|? ? Hv Hd']; subst. cbn [snd] in Hv.
  cbn [_iterencode_dict_items flat_map snd].
  rewrite !gseq_raised, first_raise_app, (IH false Hd'), <- (Hv L).
  destruct first; cbn [yield snd];
    (destruct (atom_text v) as [t|] eqn:Ha;
     [rewrite (iterencode_atom v t L Ha)|]; reflexivity).
Qed.

Lemma iterencode_raised (v : pyval) :
  forall lvl, snd (_iterencode v lvl) = first_raise (unsupported v).
Proof.
  induction v as [|b|z|f|s|lst IH|dct IH|name] using pyval_ind'; intros lvl;
    try reflexivity.
  - destruct b; reflexivity.
  - destruct lst as [|x l]; [reflexivity|].
    cbn [_iterencode unsupported].
    rewrite !gseq_raised, (list_items_raised _ _ _ _ IH).
    cbn [yield snd]. destruct (first_raise _); reflexivity.
  - destruct dct as [|kv d]; [reflexivity|].
    cbn [_iterencode unsupported].
    rewrite !gseq_raised, (dict_items_raised _ _ _ _ IH).
    cbn [yield snd]. destruct (first_raise _); reflexivity.
Qed.

Lemma flat_map_nil {A B} (f : A -> list B) (l : list A) :
  flat_map f l = [] <-> Forall (fun x => f x = []) l.
Proof.
  induction l as [|x l IH]; simpl; [split; constructor|].
  split.
  - intros H. apply app_eq_nil in H. destruct H as [H1 H2].
    constructor; [exact H1|apply IH; exact H2].
  - intros H. inversion H as [|? ? H1 H2]; subst.
    rewrite H1. apply IH. exact H2.
Qed.

Lemma serializable_unsupported (v : pyval) :
  serializable v = true <-> unsupported v = [].
Proof.
  induction v as [|b|z|f|s|lst IH|dct IH|name] using pyval_ind';
    cbn [serializable unsupported]; try (split; reflexivity).
  - rewrite forallb_forall, flat_map_nil, !Forall_forall in *.
    split; intros H x Hin; apply (IH x Hin), H, Hin.
  - rewrite forallb_forall, flat_map_nil, !Forall_forall in *.
    split; intros H x Hin; apply (IH x Hin), H, Hin.
  - split; discriminate.
Qed.

Lemma serializable_done (v : pyval) (lvl : nat) :
  serializable v = true -> snd (_iterencode v lvl) = None.
Proof.
  intros H. apply serializable_unsupported in H.
  rewrite iterencode_raised, H. reflexivity.
Qed.



(** ** The text of the memory file *)

Lemma serializable_items_done (L : nat) (l : list pyval) :
  forallb serializable l = true ->
  Forall (fun v => snd (_iterencode v L) = None) l.
Proof.
  rewrite forallb_forall, Forall_forall. intros H v Hin.
  apply serializable_done, H, Hin.
Qed.

(** X11: the layout of a list.  A list that is not empty is written as
    an opening bracket, its items each on a line of its own, indented by
    four spaces for every level of nesting and separated by commas, and
    the closing bracket on a line of its own at the indent of the list.
    An empty list is written as [[]]. *)
Theorem list_layout (lst : list pyval) (lvl : nat) :
  serializable (PList lst) = true ->
  enc (PList lst) lvl
  = match lst with
    | [] => lit "[]"
    | _ :: _ =>
        lit "[" ++ line_indent (4 * S lvl)
        ++ items_text (S lvl) (lit "," ++ line_indent (4 * S lvl)) lst
        ++ line_indent (4 * lvl) ++ lit "]"
    end.
Proof.
  intros Hs. destruct lst as [|x l]; [reflexivity|].
  cbn [serializable] in Hs.
  destruct (list_items_text (S lvl) (44%N :: 10%N :: spaces (4 * S lvl)) (x :: l)
              (91%N :: 10%N :: spaces (4 * S lvl))
              (serializable_items_done _ _ Hs)) as [G1 G2].
  unfold enc. cbn [_iterencode].
  rewrite !gseq_text, G2, !text_yield by first [exact G1|reflexivity].
  unfold line_indent. cbn [lit list_ascii_of_string map ord N_of_ascii List.app].
  rewrite <- !List.app_assoc. reflexivity.
Qed.

(** X12: the layout of a dictionary.  A dictionary that is not empty is
    written as an opening brace, its entries each on a line of its own
    (the key between quotes, a colon and a space, the value), indented
    by four spaces for every level of nesting and separated by commas,
    in the order of the dictionary, and the closing brace on a line of
    its own.  An empty dictionary is written as [{}]. *)
Theorem dict_layout (dct : list (str * pyval)) (lvl : nat) :
  serializable (PDict dct) = true ->
  enc (PDict dct) lvl
  = match dct with
    | [] => lit "{}"
    | _ :: _ =>
        lit "{" ++ line_indent (4 * S lvl)
        ++ pairs_text (S lvl) (lit "," ++ line_indent (4 * S lvl)) dct
        ++ line_indent (4 * lvl) ++ lit "}"
    end.
Proof.
  intros Hs. destruct dct as [|kv d]; [reflexivity|].
  cbn [serializable] in Hs.
  assert (Hdone : Forall (fun kv => snd (_iterencode (snd kv) (S lvl)) = None)
                         (kv :: d)).
  { rewrite forallb_forall in Hs. apply Forall_forall. intros a Hin.
    apply serializable_done, Hs, Hin. }
  destruct (dict_items_text (S lvl) (44%N :: 10%N :: spaces (4 * S lvl)) (kv :: d)
              true Hdone) as [G1 G2].
  unfold enc. cbn [_iterencode].
  rewrite !gseq_text, G2, !text_yield by first [exact G1|reflexivity].
  unfold line_indent. cbn [lit list_ascii_of_string map ord N_of_ascii List.app].
  reflexivity.
Qed.

Lemma hexdigit_printable (n : N) : (32 <=? hexdigit n)%N = true.
Proof.
  unfold hexdigit. apply N.leb_le. destruct (n <? 10)%N; lia.
Qed.

Lemma escape_char_printable (c : codepoint) :
  forallb (fun x => 32 <=? x)%N (escape_char c) = true.
Proof.
  unfold escape_char, ESCAPE_DCT.
  repeat match goal with
         | |- context [if (c =? ?k)%N then _ else _] =>
             destruct (c =? k)%N; [reflexivity|]
         end.
  destruct (c <? 32)%N eqn:E.
  - unfold format_04x. cbn [lit list_ascii_of_string map List.app forallb].
    rewrite !hexdigit_printable. reflexivity.
  - cbn [forallb]. rewrite andb_true_r. apply N.leb_le.
    apply N.ltb_ge in E. exact E.
Qed.

(** X13: how strings are written.  A string is written between two
    quotes; no control character is written as it is (each is replaced
    by an escape), so a string never spans lines in the file; and a
    string without control characters, quotes and backslashes, be it
    ASCII or not, is written character for character. *)
Theorem encode_basestring_text (s : str) :
  forallb (fun c => 32 <=? c)%N (encode_basestring s) = true
  /\ (forallb unescaped s = true -> encode_basestring s = QUOTE :: s ++ [QUOTE]).
Proof.
  unfold encode_basestring. split.
  - cbn [forallb]. rewrite forallb_app. cbn [forallb]. rewrite andb_true_r.
    change (32 <=? QUOTE)%N with true. cbn [andb].
    induction s as [|c s IH]; [reflexivity|].
    cbn [flat_map]. rewrite forallb_app, escape_char_printable, IH. reflexivity.
  - intros H. f_equal. f_equal.
    induction s as [|c s IH]; [reflexivity|].
    cbn [forallb] in H. apply andb_true_iff in H. destruct H as [Hc Hs].
    cbn [flat_map]. rewrite (IH Hs).
    unfold unescaped in Hc. rewrite !andb_true_iff, !negb_true_iff in Hc.
    destruct Hc as [[H32 H34] H92].
    unfold escape_char, ESCAPE_DCT. rewrite H92, H34, H32.
    apply N.ltb_ge in H32.
    repeat match goal with
           | |- context [if (c =? ?k)%N then _ else _] =>
               let E := fresh in
               destruct (c =? k)%N eqn:E; [apply N.eqb_eq in E; lia|]
           end.
    reflexivity.
Qed.

(** ** From one run to the next *)

Lemma well_formed_reads_back (v : pyval) :
  well_formed v -> floats_read_back v -> reads_back v.
Proof. intros [Hs Hk] Hf. apply iterencode_reads_back; assumption. Qed.






(** ** What a save that fails leaves in the file *)






















(** ** The crash log over several runs *)




(** X19: a memory file that starts with a byte-order mark is rejected,
    whatever follows the mark: the file is opened as [utf-8], not as
    [utf-8-sig], so the mark reaches [json.load]. *)
Theorem load_file_with_byte_order_mark (w : world) (t : str) :
  fs_memory w = TextFile (65279%N :: t) ->
  load_memory w
  = (Raise (JSONDecodeError "Unexpected UTF-8 BOM (decode using utf-8-sig)"),
     emit (Open DB_PATH "r") w).
Proof.
  intros Hm. rewrite load_memory_spec, Hm.
  unfold json_loads. rewrite N.eqb_refl. reflexivity.
Qed.

(** ** Load, then save *)

(** X20: what [load_memory] reads, [save_memory] can serialize.  When
    [load_memory] returns after reading the file, the message list it
    has set holds no object the encoder rejects, so a save of it never
    raises [TypeError]: it returns, or it raises [UnicodeEncodeError]
    (a lone surrogate written as an escape in the file). *)
Theorem loaded_list_is_serializable (w : world) (t : str) :
  fs_memory w = TextFile t ->
  fst (load_memory w) = Return tt ->
  unsupported (oi_messages (snd (load_memory w))) = []
  /\ (fst (save_memory (snd (load_memory w))) = Return tt
      \/ fst (save_memory (snd (load_memory w))) = Raise UnicodeEncodeError).
Proof.
  intros Hm Hl.
  assert (Hs : serializable (oi_messages (snd (load_memory w))) = true).
  { revert Hl. rewrite load_memory_spec, Hm.
    destruct (json_loads t) as [obj r| |] eqn:Hj; try discriminate.
    destruct (json_loads_well_formed _ _ _ Hj) as [Hs _].
    destruct obj; try discriminate; intros _; exact Hs. }
  split; [apply serializable_unsupported; exact Hs|].
  rewrite save_memory_spec.
  destruct (forallb _ _); [|right; reflexivity].
  rewrite (serializable_done _ 0 Hs). left. reflexivity.
Qed.


(** ** The models at inputs run through CPython 3.11 *)

(** The chunks [json.dump] writes for
    [[1, "a", [2, {"k": "v", "z": []}], {}]]. *)
Example iterencode_chunks :
  _iterencode
    (PList [PInt 1; PStr (lit "a");
            PList [PInt 2; PDict [(lit "k", PStr (lit "v")); (lit "z", PList [])]];
            PDict []]) 0
  = ([lit "[" ++ line_indent 4 ++ lit "1";
      lit "," ++ line_indent 4 ++ quoted "a";
      lit "," ++ line_indent 4;
      lit "[" ++ line_indent 8 ++ lit "2";
      lit "," ++ line_indent 8;
      lit "{"; line_indent 12; quoted "k"; lit ": "; quoted "v";
      lit "," ++ line_indent 12; quoted "z"; lit ": "; lit "[]";
      line_indent 8; lit "}"; line_indent 4; lit "]";
      lit "," ++ line_indent 4; lit "{}"; line_indent 0; lit "]"],
     None).
Proof. reflexivity. Qed.

(** Control characters, the quote and the backslash are escaped; other
    characters, also those beyond ASCII, are written as they are. *)
Example encode_basestring_escapes :
  encode_basestring [1078%N; 127%N; 31%N; 47%N; 10%N; 34%N; 92%N]
  = QUOTE :: [1078%N; 127%N] ++ lit "\u001f/\n\" ++ [QUOTE] ++ lit "\\" ++ [QUOTE].
Proof. reflexivity. Qed.

(** A key given twice keeps its first place and its last value. *)
Example json_loads_repeated_key :
  json_loads (lit "{" ++ quoted "a" ++ lit ":1," ++ quoted "b" ++ lit ":2,"
              ++ quoted "a" ++ lit ":3}")
  = Scanned (PDict [(lit "a", PInt 3); (lit "b", PInt 2)]) [].
Proof. reflexivity. Qed.

(** A surrogate pair is joined, a lone surrogate is kept, the short
    escapes are read. *)
Example json_loads_escapes :
  json_loads (lit "[" ++ quoted "\ud83d\ude00" ++ lit ", " ++ quoted "\ud83dA"
              ++ lit ", " ++ quoted "\n\/\u00e9" ++ lit "]")
  = Scanned (PList [PStr [128512%N]; PStr [55357%N; 65%N];
                    PStr [10%N; 47%N; 233%N]]) [].
Proof. reflexivity. Qed.

(** Integers, among them one with a leading zero and one after which a
    comma is missing. *)
Example json_loads_numbers :
  json_loads (lit " [-0, 12, -7, true,false , null] ")
  = Scanned (PList [PInt 0; PInt 12; PInt (-7); PBool true; PBool false; PNone]) []
  /\ json_loads (lit "[01]") = Invalid "Expecting ',' delimiter"
  /\ json_loads (lit "[1,]") = Invalid "Expecting value"
  /\ json_loads (lit "[") = Invalid "Expecting value"
  /\ json_loads (lit "[] x") = Invalid "Extra data"
  /\ json_loads (lit "{" ++ quoted "a" ++ lit " 1}")
     = Invalid "Expecting ':' delimiter".
Proof. repeat split; reflexivity. Qed.

End Program.

Arguments PNone {pyfloat}.
Arguments PBool {pyfloat} b.
Arguments PInt {pyfloat} z.
Arguments PFloat {pyfloat} f.
Arguments PStr {pyfloat} s.
Arguments PList {pyfloat} lst.
Arguments PDict {pyfloat} dct.
Arguments PObject {pyfloat} type_name.
Arguments mkWorld {pyfloat}.
Arguments oi_messages {pyfloat}.
Arguments fs_memory {pyfloat}.
Arguments fs_log {pyfloat}.
Arguments stdin {pyfloat}.
Arguments trace {pyfloat}.
Arguments set_messages {pyfloat}.
Arguments restart {pyfloat}.
Arguments json_loads {pyfloat}.
Arguments json_dumps {pyfloat}.
Arguments load_memory {pyfloat}.
Arguments save_memory {pyfloat}.
Arguments start_with_logging {pyfloat}.
Arguments sample_messages {pyfloat}.
Arguments surrogate_message {pyfloat}.
Arguments chat_raising {pyfloat}.
Arguments chat_returning {pyfloat}.
Arguments new_process {pyfloat}.

(** ** The theorems at sample runs, and the runs that refute C1, C7, C8
       and C9 as stated *)



(** C2 at a run whose chat loop returns. *)
Lemma save_attempted_on_every_exit_witness :
  exists evs,
    trace (snd (start_with_logging literal_text literal_text sample_traceback
                  (chat_returning sample_messages) (new_process Absent None)))
    = [Print "Бот запущен. Введи команду..."] ++ Open DB_PATH "w" :: evs.
Proof.
  destruct (save_attempted_on_every_exit str literal_text literal_text
              sample_traceback (chat_returning sample_messages)
              (new_process Absent None) _ _ _ eq_refl eq_refl) as [_ [evs H]].
  exists evs. exact H.
Defined.


(** C4 at a memory file that is not JSON. *)
Lemma load_failure_is_fatal_witness :
  let w := new_process (TextFile (lit "{oops")) None in
  let e := JSONDecodeError "Expecting property name enclosed in double quotes" in
  start_with_logging literal_text literal_text sample_traceback
    (chat_returning sample_messages) w
  = (Raise e, mkWorld (PList []) (TextFile (lit "{oops")) None [EmptyString]
                      [Open DB_PATH "r"]).
Proof.
  exact (proj1 (load_failure_is_fatal str literal_text literal_text
                  sample_traceback (chat_returning sample_messages)
                  (new_process (TextFile (lit "{oops")) None) _ _ eq_refl)).
Defined.

(** C5 at a new process with no memory file. *)
Lemma load_without_file_witness :
  load_memory literal_text (new_process Absent None)
  = (Return tt, new_process Absent None).
Proof.
  exact (load_without_file str literal_text (new_process Absent None) eq_refl).
Defined.


(** C7 as stated fails: the file below holds a JSON array of one
    message whose content is a lone surrogate, written as an escape.
    It loads; the array is JSON-serializable; the save raises
    [UnicodeEncodeError] and leaves the file with the text before the
    string; the next load, in a new process, raises and the message
    list stays empty. *)
Lemma lone_surrogate_breaks_round_trip :
  let t := lit "[{" ++ quoted "role" ++ lit ": " ++ quoted "user" ++ lit ", "
           ++ quoted "content" ++ lit ": " ++ quoted "\ud800" ++ lit "}]" in
  let X := PList [surrogate_message] in
  let w1 := snd (load_memory literal_text (new_process (TextFile t) None)) in
  let w2 := snd (save_memory literal_text w1) in
  json_loads literal_text t = Scanned X []
  /\ oi_messages w1 = X
  /\ json_dumps literal_text X = Return surrogate_text
  /\ fst (save_memory literal_text w1) = Raise UnicodeEncodeError
  /\ fs_memory w2 = TextFile surrogate_text_written
  /\ fst (load_memory literal_text (restart w2))
     = Raise (JSONDecodeError "Expecting value")
  /\ oi_messages (snd (load_memory literal_text (restart w2))) = PList [].
Proof. cbv zeta. repeat split; vm_compute; reflexivity. Qed.

(** C7, amended, at a memory file that holds four records. *)
Lemma reload_round_trip_witness :
  let t := lit "[1, true, null, -20]" in
  let X := PList [PInt 1; PBool true; PNone; PInt (-20)] in
  let s := lit "[" ++ line_indent 4 ++ lit "1," ++ line_indent 4 ++ lit "true,"
           ++ line_indent 4 ++ lit "null," ++ line_indent 4 ++ lit "-20"
           ++ line_indent 0 ++ lit "]" in
  let w1 := snd (load_memory literal_text (new_process (TextFile t) None)) in
  let w2 := snd (save_memory literal_text w1) in
  let w3 := snd (load_memory literal_text (restart w2)) in
  fs_memory w2 = TextFile s /\ oi_messages w3 = X.
Proof.
  cbv zeta.
  destruct (reload_round_trip str literal_text literal_text
              (new_process (TextFile (lit "[1, true, null, -20]")) None)
              (lit "[1, true, null, -20]")
              [PInt 1; PBool true; PNone; PInt (-20)]
              _
              eq_refl eq_refl
              (conj I (conj I (conj I (conj I I)))) eq_refl eq_refl)
    as (_ & _ & _ & Hfile & Hmsgs).
  split; [exact Hfile|exact Hmsgs].
Defined.

(** C8 as stated fails: list B holds a message whose content is a lone
    surrogate.  B has a serialization; the second save raises and the
    file is left with the text before the string. *)
Lemma second_save_with_surrogate_is_partial :
  let A := sample_messages in
  let B := PList [surrogate_message] in
  let w1 := snd (save_memory literal_text
                   (set_messages A (new_process Absent None))) in
  let w2 := snd (save_memory literal_text (set_messages B w1)) in
  json_dumps literal_text B = Return surrogate_text
  /\ fs_memory w2 = TextFile surrogate_text_written
  /\ str_eqb surrogate_text_written surrogate_text = false.
Proof. cbv zeta. repeat split; vm_compute; reflexivity. Qed.

(** C8, amended, at a first list the encoder rejects and a second one
    it accepts. *)
Lemma save_overwrites_witness :
  let A := PList [PInt 1; PObject "bytes"] in
  let B := PList [PInt 2; PStr (lit "b")] in
  fs_memory
    (snd (save_memory literal_text
            (set_messages B
               (snd (save_memory literal_text
                       (set_messages A (new_process Absent None)))))))
  = TextFile (lit "[" ++ line_indent 4 ++ lit "2," ++ line_indent 4
              ++ quoted "b" ++ line_indent 0 ++ lit "]").
Proof.
  exact (save_overwrites str literal_text (new_process Absent None)
           (PList [PInt 1; PObject "bytes"]) (PList [PInt 2; PStr (lit "b")])
           _ eq_refl eq_refl).
Defined.


(** C10 at a run interrupted from the keyboard. *)
Lemma base_exception_skips_crash_branch_witness :
  let w := new_process Absent (Some "earlier text"%string) in
  let run := start_with_logging literal_text literal_text sample_traceback
               (chat_raising KeyboardInterrupt sample_messages) w in
  fs_log (snd run) = Some "earlier text"%string
  /\ fst run = Raise KeyboardInterrupt.
Proof.
  cbv zeta.
  destruct (base_exception_skips_crash_branch str literal_text literal_text
              sample_traceback (chat_raising KeyboardInterrupt sample_messages)
              (new_process Absent (Some "earlier text"%string)) _ _ _
              eq_refl eq_refl eq_refl) as (_ & Hlog & _ & Hres).
  split; [exact Hlog|apply Hres; reflexivity].
Defined.

Arguments enc {pyfloat}.

(** ** The further properties at sample runs *)

(** X1 at a run whose chat loop returns; the log held text before. *)
Lemma clean_run_only_saves_witness :
  let w := new_process Absent (Some "earlier text"%string) in
  let run := start_with_logging literal_text literal_text sample_traceback
               (chat_returning sample_messages) w in
  fs_log (snd run) = Some "earlier text"%string
  /\ stdin (snd run) = [EmptyString]
  /\ oi_messages (snd run) = sample_messages.
Proof.
  cbv zeta.
  destruct (clean_run_only_saves str literal_text literal_text sample_traceback
              (chat_returning sample_messages)
              (new_process Absent (Some "earlier text"%string)) _ _
              eq_refl eq_refl) as (_ & Hlog & Hin & Hmsg).
  split; [exact Hlog|]. split; [exact Hin|exact Hmsg].
Defined.



(** X4 at a run interrupted from the keyboard while the message list
    holds a [bytes] object: the [TypeError] of the save replaces the
    interrupt. *)
Lemma save_failure_is_the_outcome_witness :
  fst (start_with_logging literal_text literal_text sample_traceback
         (chat_raising KeyboardInterrupt (PList [PObject "bytes"]))
         (new_process Absent None))
  = Raise (TypeError "Object of type bytes is not JSON serializable").
Proof.
  exact (save_failure_is_the_outcome str literal_text literal_text
           sample_traceback
           (chat_raising KeyboardInterrupt (PList [PObject "bytes"]))
           (new_process Absent None) _ _ _ _
           eq_refl eq_refl eq_refl).
Defined.

(** X5 at a file that holds an object of two keys, and at one that
    holds a string of three characters. *)
Lemma load_does_not_require_an_array_witness :
  let t1 := lit "{" ++ quoted "a" ++ lit ": 1, " ++ quoted "b" ++ lit ": 2}" in
  let t2 := quoted "abc" in
  load_memory literal_text (new_process (TextFile t1) None)
  = (Return tt,
     mkWorld (PDict [(lit "a", PInt 1); (lit "b", PInt 2)]) (TextFile t1) None
             [EmptyString]
             [Open DB_PATH "r"; Print "--- Контекст загружен (2 сообщений) ---"])
  /\ load_memory literal_text (new_process (TextFile t2) None)
     = (Return tt,
        mkWorld (PStr (lit "abc")) (TextFile t2) None [EmptyString]
                [Open DB_PATH "r"; Print "--- Контекст загружен (3 сообщений) ---"]).
Proof.
  cbv zeta. split.
  - exact (proj1 (load_does_not_require_an_array str literal_text
                    (new_process
                       (TextFile (lit "{" ++ quoted "a" ++ lit ": 1, "
                                  ++ quoted "b" ++ lit ": 2}")) None)
                    (lit "{" ++ quoted "a" ++ lit ": 1, "
                     ++ quoted "b" ++ lit ": 2}") eq_refl)
                 [(lit "a", PInt 1); (lit "b", PInt 2)] eq_refl).
  - exact (proj2 (load_does_not_require_an_array str literal_text
                    (new_process (TextFile (quoted "abc")) None)
                    (quoted "abc") eq_refl)
                 (lit "abc") eq_refl).
Defined.

(** X6 at a file that holds the number 42. *)
Lemma load_scalar_fails_after_assignment_witness :
  let w := new_process (TextFile (lit "42")) None in
  exists msg,
    fst (load_memory literal_text w) = Raise (TypeError msg)
    /\ oi_messages (snd (load_memory literal_text w)) = PInt 42
    /\ trace (snd (load_memory literal_text w)) = [Open DB_PATH "r"].
Proof.
  exact (load_scalar_fails_after_assignment str literal_text
           (new_process (TextFile (lit "42")) None) (lit "42") (PInt 42)
           eq_refl eq_refl eq_refl).
Defined.

(** X7 at a file that holds a space and a line feed. *)
Lemma load_blank_file_witness :
  load_memory literal_text (new_process (TextFile [32%N; 10%N]) None)
  = (Raise (JSONDecodeError "Expecting value"),
     mkWorld (PList []) (TextFile [32%N; 10%N]) None [EmptyString]
             [Open DB_PATH "r"]).
Proof.
  exact (load_blank_file str literal_text
           (new_process (TextFile [32%N; 10%N]) None) [32%N; 10%N]
           eq_refl eq_refl).
Defined.

(** X11 at a list of a number, a string and an empty list. *)
Lemma list_layout_witness :
  enc literal_text (PList [PInt 1; PStr (lit "a"); PList []]) 0
  = lit "[" ++ line_indent 4 ++ lit "1," ++ line_indent 4 ++ quoted "a"
    ++ lit "," ++ line_indent 4 ++ lit "[]" ++ line_indent 0 ++ lit "]".
Proof.
  exact (list_layout str literal_text [PInt 1; PStr (lit "a"); PList []] 0
           eq_refl).
Defined.

(** X12 at a message. *)
Lemma dict_layout_witness :
  enc literal_text
    (PDict [(lit "role", PStr (lit "user")); (lit "content", PStr (lit "hello"))])
    1
  = lit "{" ++ line_indent 8 ++ quoted "role" ++ lit ": " ++ quoted "user"
    ++ lit "," ++ line_indent 8 ++ quoted "content" ++ lit ": " ++ quoted "hello"
    ++ line_indent 4 ++ lit "}".
Proof.
  exact (dict_layout str literal_text
           [(lit "role", PStr (lit "user")); (lit "content", PStr (lit "hello"))]
           1 eq_refl).
Defined.

(** X13 at a word in Cyrillic letters. *)
Lemma encode_basestring_text_witness :
  encode_basestring [1087; 1088; 1080; 1074; 1077; 1090]%N
  = QUOTE :: [1087; 1088; 1080; 1074; 1077; 1090]%N ++ [QUOTE].
Proof.
  exact (proj2 (encode_basestring_text [1087; 1088; 1080; 1074; 1077; 1090]%N)
               eq_refl).
Defined.






(** X19 at a file that holds a byte-order mark and an empty array. *)
Lemma load_file_with_byte_order_mark_witness :
  load_memory literal_text (new_process (TextFile (65279%N :: lit "[]")) None)
  = (Raise (JSONDecodeError "Unexpected UTF-8 BOM (decode using utf-8-sig)"),
     mkWorld (PList []) (TextFile (65279%N :: lit "[]")) None [EmptyString]
             [Open DB_PATH "r"]).
Proof.
  exact (load_file_with_byte_order_mark str literal_text
           (new_process (TextFile (65279%N :: lit "[]")) None) (lit "[]")
           eq_refl).
Defined.

(** X20 at a file whose one string is a lone surrogate, written as an
    escape. *)
Lemma loaded_list_is_serializable_witness :
  let w := new_process (TextFile (lit "[" ++ quoted "\ud800" ++ lit "]")) None in
  let w1 := snd (load_memory literal_text w) in
  unsupported str (oi_messages w1) = []
  /\ (fst (save_memory literal_text w1) = Return tt
      \/ fst (save_memory literal_text w1) = Raise UnicodeEncodeError).
Proof.
  exact (loaded_list_is_serializable str literal_text literal_text
           (new_process (TextFile (lit "[" ++ quoted "\ud800" ++ lit "]")) None)
           (lit "[" ++ quoted "\ud800" ++ lit "]")
           eq_refl eq_refl).
Defined.

